(** * Nokia 5110 (PCD8544) LCD driver: the framebuffer compositing engine

    A shallow embedding of the [LcdDriver] class of [Project/LcdDriver.hpp]:
    the page resolver ([find_affected_rows], [count_bits]), the bit shifter
    ([shift_data]), the compositor ([write_to_buffer], [put_char_xy],
    [print_buffer]) and the bit-banged transport ([send], [write], [setXY],
    [refresh_screen], [clear], [print]).

    Conventions.
    - A [uint8_t] is a [Z] in [0, 256); every place where the C++ code stores
      an [int] expression into a [uint8_t] is written [u8 _] (reduction
      modulo 256).  [int] arithmetic is plain [Z] arithmetic, [/] and [%]
      are [Z.quot] and [Z.rem].
    - An array is a [list Z].  C++ does not check indices; an access outside
      the array object is undefined behaviour and is modelled as a fault:
      [load] and [store] return [None], and every function that touches
      memory lives in the [option] monad.
    - A font table carries its element type; an entry is the [Z] it holds,
      and [!=] between entries of two tables compares them after the usual
      arithmetic conversions of the two element types ([differs]).
    - The GPIO lines are a trace of pin writes, most recent first;
      [history] reads it in chronological order. *)

From Stdlib Require Import ZArith Bool Lia.
From stdpp Require Import base option list list_numbers.

Local Open Scope Z_scope.

(** ** Machine integers *)

Definition u8 (z : Z) : Z := z mod 256.

Definition is_u8 (z : Z) : Prop := 0 <= z < 256.

(** ** Arrays with faulting accesses *)

Definition load (a : list Z) (i : Z) : option Z :=
  if 0 <=? i then a !! Z.to_nat i else None.

Definition store (a : list Z) (i : Z) (v : Z) : option (list Z) :=
  if (0 <=? i) && (i <? Z.of_nat (length a))
  then Some (<[Z.to_nat i := v]> a)
  else None.

(** ** Loops

    [foldM body l s] runs [body] once per element of [l], threading the state
    and stopping at the first fault.  [for (int i = lo; i < hi; i++)] is
    [foldM body (seqZ lo (hi - lo))]; a descending loop runs over the
    reversed range. *)

Fixpoint foldM {A S : Type} (body : A -> S -> option S) (l : list A) (s : S)
  : option S :=
  match l with
  | [] => Some s
  | a :: l' => s' ← body a s; foldM body l' s'
  end.

Definition upto (lo hi : Z) : list Z := seqZ lo (hi - lo).

Definition downto (hi lo : Z) : list Z := reverse (seqZ (lo + 1) (hi - lo)).

(** [for (int i = lo; i < hi; i += step)] *)
Definition strided (lo hi step : Z) : list Z :=
  (fun k => lo + k * step) <$> seqZ 0 ((hi - lo + step - 1) ÷ step).

(** ** Constants of the class *)

Definition LCD_COMMAND : Z := 0.
Definition LCD_DATA : Z := 1.
Definition LCD_WIDTH : Z := 84.
Definition LCD_HEIGHT : Z := 48.
Definition LCD_SIZE : Z := LCD_WIDTH * LCD_HEIGHT ÷ 8.
Definition LCD_SETYADDR : Z := 0x40.
Definition LCD_SETXADDR : Z := 0x80.

(** ** RowSpanResolver *)

(** [count_bits]: population count of an 8-bit mask. *)
Definition count_bits (n : Z) : Z :=
  foldl (fun bit_count i =>
           if Z.land n (Z.shiftl 1 i) =? 0 then bit_count
           else u8 (bit_count + 1))
        0 (upto 0 8).

(** [find_affected_rows]: the mask of pages touched by [char_height] rows
    starting at row [y].  Both parameters are [uint8_t]; the comparisons are
    made on [int]. *)
Definition find_affected_rows (y char_height : Z) : Z :=
  let affected_rows :=
    foldl (fun affected_rows i =>
             let affected_rows :=
               if (y <? i + 8) && (y >=? i)
               then u8 (Z.lor affected_rows (Z.shiftl 1 (i ÷ 8)))   (* start row *)
               else affected_rows in
             if (y + char_height - 1 <? i + 8) && (y + char_height >=? i)
             then u8 (Z.lor affected_rows (Z.shiftl 1 (i ÷ 8)))     (* end row *)
             else affected_rows)
          0 (strided 0 LCD_HEIGHT 8) in
  (* set the bits between start and end row *)
  foldl (fun affected_rows i => u8 (Z.lor affected_rows (Z.shiftl 1 i)))
        affected_rows
        (upto (y ÷ 8 + 1) ((y + char_height - 1) ÷ 8)).

(** ** BitShifter *)

(** [shift_data]: re-align the glyph bytes [data] ([char_width] columns,
    one row of [char_width] bytes per page) by [shift_value] bits into
    [new_data].  The three branches are the three branches of the source;
    [new_data] is updated in place, so the second branch ORs into whatever
    the caller put there. *)
Definition shift_data (data : list Z) (char_width : Z) (new_data : list Z)
    (shift_value bit_count : Z) : option (list Z) :=
  if shift_value =? 0 then
    foldM (fun i new_data =>
             foldM (fun j new_data =>
                      d ← load data (i + j * char_width);
                      store new_data (i + j * char_width) d)
                   (upto 0 bit_count) new_data)
          (upto 0 char_width) new_data
  else if negb (bit_count =? 1) then
    foldM (fun i new_data =>
             foldM (fun j new_data =>
                      hi ← load new_data (i + j * char_width);
                      d ← load data (i + (j - 1) * char_width);
                      new_data ← store new_data (i + j * char_width)
                                   (u8 (Z.lor hi (Z.shiftr d (8 - shift_value))));
                      lo ← load new_data (i + (j - 1) * char_width);
                      d ← load data (i + (j - 1) * char_width);
                      store new_data (i + (j - 1) * char_width)
                            (u8 (Z.lor lo (Z.shiftl d shift_value))))
                   (downto (bit_count - 1) 0) new_data)
          (upto 0 char_width) new_data
  else
    foldM (fun i new_data =>
             d ← load data i;
             store new_data i (u8 (Z.shiftr d shift_value)))
          (upto 0 char_width) new_data.

(** ** Compositor *)

(** The inner [for (int j = 7; j > -1; j--)] of [write_to_buffer]: find the
    highest set bit of [affected_rows], clear it and leave the loop; [row]
    stays [0] when no bit is set. *)
Fixpoint scan_row (js : list Z) (affected_rows : Z) : Z * Z :=
  match js with
  | [] => (0, affected_rows)
  | j :: js' =>
      if Z.land affected_rows (Z.shiftl 1 j) =? 0
      then scan_row js' affected_rows
      else (j, u8 (Z.land affected_rows (Z.lnot (Z.shiftl 1 j))))
  end.

(** The body of the column loop of [write_to_buffer] on one cell: an [if]
    followed by an [if]/[else], as in the source. *)
Definition merge_cell (inverttext char_mode : bool) (cell d : Z) : Z :=
  let cell :=
    if inverttext && char_mode then u8 (Z.lor cell (Z.lnot d)) else cell in
  if inverttext && negb char_mode
  then u8 (Z.land cell (Z.lnot d))
  else u8 (Z.lor cell d).

(** Loop state of [write_to_buffer]. *)
Record wtb_state := {
  wtb_buffer : list Z;
  wtb_rows : Z;          (* affected_rows, bits cleared as they are used *)
  wtb_data_row : Z       (* new_data_row *)
}.

Definition write_to_buffer (inverttext : bool) (buffer : list Z)
    (x affected_rows : Z) (new_data : list Z) (char_width bit_count : Z)
    (char_mode : bool) : option (list Z) :=
  st ← foldM (fun (_ : Z) st =>
                let '(row, affected_rows) := scan_row (downto 7 (-1)) (wtb_rows st) in
                let new_data_row := wtb_data_row st in
                buffer ← foldM (fun j buffer =>
                                  d ← load new_data (j + new_data_row * char_width);
                                  cell ← load buffer (x + row * LCD_WIDTH + j);
                                  store buffer (x + row * LCD_WIDTH + j)
                                        (merge_cell inverttext char_mode cell d))
                               (upto 0 char_width) (wtb_buffer st);
                Some {| wtb_buffer := buffer;
                        wtb_rows := affected_rows;
                        wtb_data_row := new_data_row - 1 |})
             (upto 0 bit_count)
             {| wtb_buffer := buffer;
                wtb_rows := affected_rows;
                wtb_data_row := bit_count - 1 |};
  Some (wtb_buffer st).

(** ** DisplayTransport: the bit-banged bus *)

Inductive pin := RST | CE | DC | DIN | CLK.

(** One [HAL_GPIO_WritePin] call: the line and the level written. *)
Definition pin_write : Type := pin * bool.

Record LcdDriver := {
  buffer : list Z;
  _cursor_x : Z;
  _cursor_y : Z;
  inverttext : bool;
  wire : list pin_write     (* every pin write so far, most recent first *)
}.

(** The pin writes in the order they were made. *)
Definition history (lcd : LcdDriver) : list pin_write := reverse (wire lcd).

Definition with_buffer (lcd : LcdDriver) (b : list Z) : LcdDriver :=
  {| buffer := b; _cursor_x := _cursor_x lcd; _cursor_y := _cursor_y lcd;
     inverttext := inverttext lcd; wire := wire lcd |}.

Definition with_wire (lcd : LcdDriver) (w : list pin_write) : LcdDriver :=
  {| buffer := buffer lcd; _cursor_x := _cursor_x lcd; _cursor_y := _cursor_y lcd;
     inverttext := inverttext lcd; wire := w |}.

(** [send]: eight bits, most significant first, each followed by a clock
    pulse. *)
Definition send (data : Z) : list pin_write :=
  snd (foldl (fun '(data, w) (_ : Z) =>
                (u8 (Z.shiftl data 1),
                 w ++ [(DIN, negb (Z.land data 0x80 =? 0)); (CLK, false); (CLK, true)]))
             (data, []) (upto 0 8)).

(** The pin writes of one [write(data, mode)] call. *)
Definition write_frame (data mode : Z) : list pin_write :=
  if LCD_COMMAND =? mode then
    [(DC, false); (CE, false)] ++ send data ++ [(CE, true)]
  else if LCD_DATA =? mode then
    [(DC, true); (CE, false)] ++ send data ++ [(CE, true)]
  else [].

Definition write (data mode : Z) (lcd : LcdDriver) : LcdDriver :=
  with_wire lcd (reverse (write_frame data mode) ++ wire lcd).

Definition setXY (x y : Z) (lcd : LcdDriver) : LcdDriver :=
  let lcd := write (u8 (Z.lor LCD_SETYADDR y)) LCD_COMMAND lcd in
  let lcd := write (u8 (Z.lor LCD_SETXADDR x)) LCD_COMMAND lcd in
  {| buffer := buffer lcd; _cursor_x := x; _cursor_y := y;
     inverttext := inverttext lcd; wire := wire lcd |}.

Definition refresh_screen (lcd : LcdDriver) : option LcdDriver :=
  let lcd := setXY LCD_SETXADDR LCD_SETYADDR lcd in
  foldM (fun i lcd =>
           foldM (fun j lcd =>
                    b ← load (buffer lcd) (i * LCD_WIDTH + j);
                    Some (write b LCD_DATA lcd))
                 (upto 0 LCD_WIDTH) lcd)
        (upto 0 6) lcd.

(** [clear]: one data write and one buffer store per byte. *)
Definition clear (lcd : LcdDriver) : option LcdDriver :=
  foldM (fun i lcd =>
           let lcd := write 0x00 LCD_DATA lcd in
           b ← store (buffer lcd) i 0x00;
           Some (with_buffer lcd b))
        (upto 0 LCD_SIZE) lcd.

Definition invert (mode : bool) (lcd : LcdDriver) : LcdDriver :=
  {| buffer := buffer lcd; _cursor_x := _cursor_x lcd; _cursor_y := _cursor_y lcd;
     inverttext := mode; wire := wire lcd |}.

(** ** Placement *)

(** Modelled from the spec: the [custom_char] structs of [custom_char.h],
    which is not among the sources.  [put_char_xy] uses exactly three
    members: [char_width], [char_height] and the column bytes [data]
    ([char_width] columns by ceil([char_height]/8) page rows). *)
Record custom_char := {
  char_width : Z;
  char_height : Z;
  data : list Z
}.

(** The variable-length array [uint8_t new_data[n]{0x00}]. *)
Definition zeroed (n : Z) : list Z := replicate (Z.to_nat n) 0.

(** [put_char_xy(c, x, y)]; [x] and [y] are [uint8_t]. *)
Definition put_char_xy (c : custom_char) (x y : Z) (lcd : LcdDriver)
  : option LcdDriver :=
  let shift_value := u8 (Z.rem y 8) in
  let affected_rows := find_affected_rows y (u8 (char_height c)) in
  let bit_count := count_bits affected_rows in
  let new_data := zeroed (char_width c * bit_count) in
  new_data ← shift_data (data c) (u8 (char_width c)) new_data shift_value bit_count;
  b ← write_to_buffer (inverttext lcd) (buffer lcd) x affected_rows new_data
        (char_width c) bit_count false;
  refresh_screen (with_buffer lcd b).

(** ** Text *)

(** The integer types an entry of a font table can have.  [int] is 32 bits
    wide on the target; a type matters to a comparison of values through its
    signedness and its width only, and the names stand for any type that has
    both. *)
Inductive int_type :=
  | int8_t | uint8_t | int16_t | uint16_t
  | int32_t | uint32_t | int64_t | uint64_t.

Definition is_signed (t : int_type) : bool :=
  match t with
  | int8_t | int16_t | int32_t | int64_t => true
  | uint8_t | uint16_t | uint32_t | uint64_t => false
  end.

Definition bits (t : int_type) : Z :=
  match t with
  | int8_t | uint8_t => 8
  | int16_t | uint16_t => 16
  | int32_t | uint32_t => 32
  | int64_t | uint64_t => 64
  end.

Definition unsigned_of (t : int_type) : int_type :=
  match t with
  | int8_t | uint8_t => uint8_t
  | int16_t | uint16_t => uint16_t
  | int32_t | uint32_t => uint32_t
  | int64_t | uint64_t => uint64_t
  end.

(** The value [v] converted to the type [t]: reduced modulo 2^[bits t] into
    the range of [t]. *)
Definition convert (t : int_type) (v : Z) : Z :=
  if is_signed t
  then (v + 2 ^ (bits t - 1)) mod 2 ^ bits t - 2 ^ (bits t - 1)
  else v mod 2 ^ bits t.

(** Integral promotion: a type narrower than [int] becomes [int]. *)
Definition promote (t : int_type) : int_type :=
  if bits t <? 32 then int32_t else t.

(** The usual arithmetic conversions of a binary operator: after promotion,
    the wider type; at the same width the unsigned type unless both are
    signed.  (A wider signed type holds every value of a narrower unsigned
    one, so it is the common type.) *)
Definition common_type (t u : int_type) : int_type :=
  let t := promote t in
  let u := promote u in
  if bits t <? bits u then u
  else if bits u <? bits t then t
  else if is_signed t && is_signed u then t
  else unsigned_of t.

(** [a != b] for [a] of type [t] and [b] of type [u]. *)
Definition differs (t u : int_type) (a b : Z) : bool :=
  negb (convert (common_type t u) a =? convert (common_type t u) b).

(** A font table [std::array<std::array<T, N>, M>]: [elem] is [T], [columns]
    is [N], the number of column entries of a glyph, and [glyphs] holds the
    [M] glyphs.  The tables themselves ([font.h]) are not among the
    sources. *)
Record font := {
  elem : int_type;
  columns : Z;
  glyphs : list (list Z)
}.

Definition load_glyph (f : font) (i : Z) : option (list Z) :=
  if 0 <=? i then glyphs f !! Z.to_nat i else None.

(** [if (c < ' ' || c > '~') { c = ' '; }] followed by the index expression
    [c - ' '] of both printing functions. *)
Definition glyph_index (c : Z) : Z :=
  let c := if (c <? 32) || (c >? 126) then 32 else c in
  c - 32.

(** The body of the [while] loop of [print_buffer] over [str], up to and
    including [refresh_screen()], for the character [c]. *)
Definition print_buffer_char (c x y : Z) (fontData : font) (lcd : LcdDriver)
  : option LcdDriver :=
  let char_width := u8 (columns fontData) in
  let shift_value := u8 (Z.rem y 8) in
  let affected_rows := find_affected_rows y (u8 (columns fontData)) in
  let bit_count := count_bits affected_rows in
  let new_data := zeroed (char_width * bit_count) in
  glyph ← load_glyph fontData (glyph_index c);
  new_data ← shift_data glyph char_width new_data shift_value bit_count;
  b ← write_to_buffer (inverttext lcd) (buffer lcd) x affected_rows new_data
        char_width bit_count false;
  refresh_screen (with_buffer lcd b).

(** [print_buffer(str, x, y, fontData)].  [str] is the array the pointer walks
    over; the loop ends at the first NUL (or at the end of the list, which
    stands for the terminator).  [x += N] is a [uint8_t] addition. *)
Fixpoint print_buffer (str : list Z) (x y : Z) (fontData : font) (lcd : LcdDriver)
  : option LcdDriver :=
  match str with
  | [] => Some lcd
  | c :: str =>
      if c =? 0 then Some lcd else
      lcd ← print_buffer_char c x y fontData lcd;
      print_buffer str (u8 (x + columns fontData)) y fontData lcd
  end.

Definition cell_of (f : font) (i j : Z) : Z :=
  default 0 (g ← load_glyph f i; load g j).

(** [arrays_equal(a, b)]: [false] when the dimensions differ, otherwise
    [false] at the first pair of entries for which [a[i][j] != b[i][j]], a
    comparison of a [T] with a [U]. *)
Definition arrays_equal (a b : font) : bool :=
  if negb (Z.of_nat (length (glyphs a)) =? Z.of_nat (length (glyphs b)))
     || negb (columns a =? columns b)
  then false
  else forallb (fun i =>
                  forallb (fun j => negb (differs (elem a) (elem b)
                                             (cell_of a i j) (cell_of b i j)))
                          (upto 0 (columns a)))
               (upto 0 (Z.of_nat (length (glyphs a)))).

Section Fonts.

(** The three tables of [font.h] that [get_shift_value] compares with. *)
Variables FontMega FontHuge FontLarge : font.

Definition get_shift_value (fontData : font) : Z :=
  if arrays_equal fontData FontMega || arrays_equal fontData FontHuge then 24
  else if arrays_equal fontData FontLarge then 8
  else 0.

(** The values of [shift] in [for (; shift >= 0; shift -= 8)]. *)
Definition shifts (shift : Z) : list Z :=
  (fun k => shift - 8 * k) <$> seqZ 0 (shift / 8 + 1).

(** The body of the [while] loop of [print] over [str] for the character [c]:
    straight to the device, the buffer is not involved. *)
Definition print_char (c x y : Z) (fontData : font) (lcd : LcdDriver)
  : option LcdDriver :=
  charData ← load_glyph fontData (glyph_index c);
  foldM (fun shift lcd =>
           let lcd := setXY x (u8 (y + shift ÷ 8)) lcd in
           foldM (fun i lcd =>
                    d ← load charData i;
                    Some (write (u8 (Z.land (Z.shiftr d shift) 0xFF))
                                LCD_DATA lcd))
                 (upto 0 (columns fontData)) lcd)
        (shifts (get_shift_value fontData)) lcd.

(** [print(str, x, y, fontData)]. *)
Fixpoint print (str : list Z) (x y : Z) (fontData : font) (lcd : LcdDriver)
  : option LcdDriver :=
  match str with
  | [] => Some lcd
  | c :: str =>
      if c =? 0 then Some lcd else
      lcd ← print_char c x y fontData lcd;
      print str (u8 (x + columns fontData)) y fontData lcd
  end.

End Fonts.

(** ** Pixels, areas and lines *)

(** [set_pixel(x, y, value)]: one read-modify-write of the byte that holds
    the pixel; [x] and [y] are [uint8_t], the index is computed on [int]. *)
Definition set_pixel (x y : Z) (value : bool) (lcd : LcdDriver)
  : option LcdDriver :=
  let i := x + (y ÷ 8) * LCD_WIDTH in
  cell ← load (buffer lcd) i;
  b ← (if value
       then store (buffer lcd) i (u8 (Z.lor cell (Z.shiftl 1 (Z.rem y 8))))
       else store (buffer lcd) i (u8 (Z.land cell (Z.lnot (Z.shiftl 1 (Z.rem y 8))))));
  Some (with_buffer lcd b).

(** [clear_area(x, y, width, height)]: all four parameters and both loop
    counters are [uint8_t]; the sums [x + j] and [y + i] are [int]s
    converted to the [uint8_t] parameters of [set_pixel]. *)
Definition clear_area (x y width height : Z) (lcd : LcdDriver)
  : option LcdDriver :=
  foldM (fun i lcd =>
           foldM (fun j lcd => set_pixel (u8 (x + j)) (u8 (y + i)) false lcd)
                 (upto 0 width) lcd)
        (upto 0 height) lcd.

(** [draw_H_line(x, y, l)]: [int] parameters; only the starting point is
    checked. *)
Definition draw_H_line (x y l : Z) (lcd : LcdDriver) : option LcdDriver :=
  if (x >=? 0) && (x <? LCD_WIDTH) && (y >=? 0) && (y <? LCD_HEIGHT) then
    foldM (fun cx lcd =>
             let by_ := (y ÷ 8) * 84 + x in
             let bi := Z.rem y 8 in
             cell ← load (buffer lcd) (by_ + cx);
             b ← store (buffer lcd) (by_ + cx) (u8 (Z.lor cell (Z.shiftl 1 bi)));
             Some (with_buffer lcd b))
          (upto 0 l) lcd
  else Some lcd.

(** [draw_V_line(x, y, l)]: the loop runs for [cy = 0 .. l], both ends
    included. *)
Definition draw_V_line (x y l : Z) (lcd : LcdDriver) : option LcdDriver :=
  if (x >=? 0) && (x <? 84) && (y >=? 0) && (y <? 48) then
    foldM (fun cy lcd => set_pixel (u8 x) (u8 (y + cy)) true lcd)
          (upto 0 (l + 1)) lcd
  else Some lcd.

(** ** Bit reversal and initialisation *)

Definition reverse_bits (n : Z) : Z :=
  let n := u8 (Z.lor (Z.shiftr (Z.land n 0xF0) 4) (Z.shiftl (Z.land n 0x0F) 4)) in
  let n := u8 (Z.lor (Z.shiftr (Z.land n 0xCC) 2) (Z.shiftl (Z.land n 0x33) 2)) in
  let n := u8 (Z.lor (Z.shiftr (Z.land n 0xAA) 1) (Z.shiftl (Z.land n 0x55) 1)) in
  n.

Definition LCD_DISPLAY_NORMAL : Z := 0x0C.

(** One [HAL_GPIO_WritePin] call outside [write]. *)
Definition write_pin (p : pin) (level : bool) (lcd : LcdDriver) : LcdDriver :=
  with_wire lcd ((p, level) :: wire lcd).

(** [init]: reset pulse, six commands, [clear], invert flag off. *)
Definition init (lcd : LcdDriver) : option LcdDriver :=
  let lcd := write_pin RST false lcd in
  let lcd := write_pin RST true lcd in
  let lcd := write 0x21 LCD_COMMAND lcd in
  let lcd := write 0xB8 LCD_COMMAND lcd in
  let lcd := write 0x04 LCD_COMMAND lcd in
  let lcd := write 0x12 LCD_COMMAND lcd in
  let lcd := write 0x20 LCD_COMMAND lcd in
  let lcd := write LCD_DISPLAY_NORMAL LCD_COMMAND lcd in
  lcd ← clear lcd;
  Some (invert false lcd).

(** ** The scenarios of the specification *)

Definition cleared : LcdDriver :=
  {| buffer := zeroed LCD_SIZE; _cursor_x := 0; _cursor_y := 0;
     inverttext := false; wire := [] |}.

(** A glyph of height 8 and width 5 whose columns are all ones. *)
Definition all_ones_5x8 : custom_char :=
  {| char_width := 5; char_height := 8; data := replicate 5 0xFF |}.

(** A font of five columns whose glyphs are eight pixels high, all ones. *)
Definition five_column_font : font :=
  {| elem := uint8_t; columns := 5; glyphs := replicate 95 (replicate 5 0xFF) |}.

(** A display with every pixel on. *)
Definition all_on : LcdDriver :=
  {| buffer := replicate (Z.to_nat LCD_SIZE) 0xFF; _cursor_x := 0; _cursor_y := 0;
     inverttext := false; wire := [] |}.

(** A glyph one column wide and nine pixels high, all ones: two page rows,
    the second of which holds the ninth pixel. *)
Definition column_1x9 : custom_char :=
  {| char_width := 1; char_height := 9; data := [0xFF; 0x01] |}.

(** ceil([a] / 8) for [a >= 0]. *)
Definition ceil8 (a : Z) : Z := (a + 7) / 8.

(** ** Vocabulary of the proofs *)

(** Closed side conditions: arithmetic, or evaluation. *)
Ltac by_eval :=
  first [ lia
        | reflexivity
        | vm_compute; repeat split; first [ reflexivity | discriminate ] ].

(** A loop that stores [f data[k]] at [new_data[k]] for each index [k] of a
    list: the common shape of the first and the third branch. *)
Definition map_into (f : Z -> Z) (data : list Z) (k : Z) (new_data : list Z)
  : option (list Z) :=
  d ← load data k; store new_data k (f d).

(** The cells of a glyph of [cw] columns and [rows] page rows. *)
Definition glyph_cells (cw rows : Z) : list Z :=
  upto 0 cw ≫= (fun i => (fun j => i + j * cw) <$> upto 0 rows).

(** The value read at an index known to be in range. *)
Definition rd (a : list Z) (k : Z) : Z := default 0 (load a k).

(** The two statements of the inner loop of the second branch, at column
    [i] and page row [j]. *)
Definition carry_step (data : list Z) (cw s i j : Z) (new_data : list Z)
  : option (list Z) :=
  hi ← load new_data (i + j * cw);
  d ← load data (i + (j - 1) * cw);
  new_data ← store new_data (i + j * cw) (u8 (Z.lor hi (Z.shiftr d (8 - s))));
  lo ← load new_data (i + (j - 1) * cw);
  d ← load data (i + (j - 1) * cw);
  store new_data (i + (j - 1) * cw) (u8 (Z.lor lo (Z.shiftl d s))).

(** What the cell of page row [r] of a column holds after the inner loop
    has run from row [n] down to row 1: first the row's own byte moved up
    ([r < n]), then the carry of the row above ([0 < r]), each ORed in and
    stored as a [uint8_t]. *)
Definition shifted_cell (s n r old d dprev : Z) : Z :=
  let a := if r <? n then u8 (Z.lor old (Z.shiftl d s)) else old in
  if 0 <? r then u8 (Z.lor a (Z.shiftr dprev (8 - s))) else a.

(** Two runs of a loop over the same list, kept in step by a relation
    indexed by the number of iterations done. *)
Definition both {S T : Type} (R : S -> T -> Prop) (o1 : option S) (o2 : option T)
  : Prop :=
  match o1, o2 with
  | Some s, Some t => R s t
  | None, None => True
  | _, _ => False
  end.

(** The pixel at column [x], row [y] of a buffer: bit [y % 8] of the byte
    at [x + (y / 8) * 84], the addressing [set_pixel] uses. *)
Definition pixel (b : list Z) (x y : Z) : option bool :=
  cell ← load b (x + (y ÷ 8) * LCD_WIDTH);
  Some (Z.testbit cell (Z.rem y 8)).

(** Every byte of an array is a [uint8_t] value. *)
Definition bytes (b : list Z) : Prop := Forall is_u8 b.

(** The number of pages marked in [m] below page [p]. *)
Definition pages_below (m p : Z) : Z := count_bits (m mod 2 ^ p).

(** The three pin writes that clock out bit [7 - k] of [d]. *)
Definition bit_frame (d k : Z) : list pin_write :=
  [(DIN, Z.testbit d (7 - k)); (CLK, false); (CLK, true)].

#[local] Instance pin_eq_dec : EqDecision pin.
Proof. solve_decision. Defined.

(** Pixel [k], counted from the top, of column [i] of a glyph: bit [k % 8] of
    the byte of column [i] in page row [k / 8], for the ceil([char_height]/8)
    page rows the glyph has. *)
Definition glyph_pixel (c : custom_char) (i k : Z) : bool :=
  (0 <=? i) && (i <? char_width c)
  && (0 <=? k) && (k <? 8 * ceil8 (char_height c))
  && Z.testbit (rd (data c) (i + k / 8 * char_width c)) (k mod 8).

(** The number of pages a placement must resolve to for the glyph's rows to
    land in them: one page per row of the glyph, and one more when the
    glyph is moved down inside its page. *)
Definition pages_needed (y h : Z) : Z :=
  ceil8 h + (if y mod 8 =? 0 then 0 else 1).

(** The glyph of character [c] of a font as [print_buffer] places it: a
    custom character whose width and height are both the column count. *)
Definition font_char (f : font) (c : Z) : custom_char :=
  {| char_width := columns f; char_height := columns f;
     data := default [] (load_glyph f (glyph_index c)) |}.

(** The pixels of a line of text, one glyph every [columns f] columns. *)
Fixpoint text_pixel (f : font) (str : list Z) (i k : Z) : bool :=
  match str with
  | [] => false
  | c :: rest =>
      glyph_pixel (font_char f c) i k || text_pixel f rest (i - columns f) k
  end.

(** A font table as the type [std::array<std::array<T, N>, M>] has it:
    every glyph holds exactly [columns] entries. *)
Definition font_wf (f : font) : Prop :=
  0 <= columns f
  /\ Forall (fun g => Z.of_nat (length g) = columns f) (glyphs f).

(** [v] is a value of the type [t]. *)
Definition in_type (t : int_type) (v : Z) : Prop :=
  if is_signed t
  then - 2 ^ (bits t - 1) <= v < 2 ^ (bits t - 1)
  else 0 <= v < 2 ^ bits t.

(** Every entry of the table is a value of its element type. *)
Definition font_typed (f : font) : Prop :=
  Forall (Forall (in_type (elem f))) (glyphs f).


(** * Properties *)

(** ** Basic facts about bytes, arrays and loops *)

Lemma u8_land (z : Z) : u8 z = Z.land z 255.
Proof. unfold u8. change 255 with (Z.ones 8). now rewrite Z.land_ones. Qed.

Lemma u8_range (z : Z) : is_u8 (u8 z).
Proof. unfold is_u8, u8. apply Z.mod_pos_bound. lia. Qed.

Lemma u8_id (z : Z) : is_u8 z -> u8 z = z.
Proof. unfold is_u8, u8. intros H. now apply Z.mod_small. Qed.

Lemma u8_lor (a b : Z) : u8 (Z.lor a b) = Z.lor (u8 a) (u8 b).
Proof. rewrite !u8_land. apply Z.land_lor_distr_l. Qed.

Lemma u8_idem (z : Z) : u8 (u8 z) = u8 z.
Proof. apply u8_id, u8_range. Qed.

Lemma forallb_upto (P : Z -> bool) (lo hi : Z) :
  forallb P (upto lo hi) = true -> forall z, lo <= z < hi -> P z = true.
Proof.
  intros H z Hz. rewrite forallb_forall in H. apply H.
  apply list_elem_of_In, elem_of_seqZ. lia.
Qed.

(** ** The page resolver *)

(** What [find_affected_rows] marks, for every placement that fits the
    display: the pages the glyph covers, plus the page below whenever the
    glyph ends exactly on a page boundary above the last page. *)
Lemma count_bits_find_affected_rows (y h : Z) :
  0 <= y < 48 -> 1 <= h <= 48 -> y + h <= 48 ->
  count_bits (find_affected_rows y h)
  = ceil8 (y mod 8 + h)
    + (if ((y + h) mod 8 =? 0) && (y + h <? 48) then 1 else 0).
Proof.
  intros Hy Hh Hfit.
  assert (Hall : forallb (fun y => forallb (fun h =>
             (48 <? y + h)
             || (count_bits (find_affected_rows y h)
                 =? ceil8 (y mod 8 + h)
                    + (if ((y + h) mod 8 =? 0) && (y + h <? 48) then 1 else 0)))
           (upto 1 49)) (upto 0 48) = true) by (vm_compute; reflexivity).
  pose proof (forallb_upto _ _ _ Hall y Hy) as Hrow. cbv beta in Hrow.
  pose proof (forallb_upto _ _ _ Hrow h ltac:(lia)) as Hcell. cbv beta in Hcell.
  apply orb_true_iff in Hcell as [Hbad | Hok].
  - apply Z.ltb_lt in Hbad. lia.
  - now apply Z.eqb_eq in Hok.
Qed.

(** C1 (the code departs from the claim).  A glyph of height 8 placed at
    [y = 0] covers page 0 only, and ceil((0 % 8 + 8) / 8) = 1, but
    [find_affected_rows 0 8] also marks page 1: the end-row test compares
    [y + char_height], not [y + char_height - 1], with the page start, so
    [count_bits] returns 2. *)
Theorem find_affected_rows_page_aligned :
  find_affected_rows 0 8 = 3
  /\ count_bits (find_affected_rows 0 8) = 2
  /\ ceil8 (0 mod 8 + 8) = 1.
Proof. repeat split; vm_compute; reflexivity. Qed.

(** ** The merge of one cell *)

(** With the invert flag set and [char_mode] true both the complement and
    the plain byte are ORed in, so the cell is saturated whatever it held. *)
Lemma merge_cell_invert_char (cell d : Z) : merge_cell true true cell d = 255.
Proof.
  unfold merge_cell. cbn [andb negb].
  rewrite (u8_lor (u8 _) d), u8_idem, <- u8_lor, <- Z.lor_assoc.
  rewrite (Z.lor_comm (Z.lnot d) d), Z.lor_lnot_diag, Z.lor_m1_r.
  reflexivity.
Qed.

Lemma merge_cell_invert_area (cell d : Z) :
  merge_cell true false cell d = u8 (Z.land cell (Z.lnot d)).
Proof. reflexivity. Qed.

Lemma merge_cell_plain (char_mode : bool) (cell d : Z) :
  merge_cell false char_mode cell d = u8 (Z.lor cell d).
Proof. reflexivity. Qed.

(** C2 (the code departs from the claim).  Invert flag set, [char_mode]
    true, one cell holding [0x00], shifted byte [0x0F]: the complement-OR
    merge alone gives [0xF0]; [write_to_buffer] leaves [0xFF] in the cell,
    because the second [if] is not an [else if] and its [else] branch ORs the
    plain byte in as well. *)
Theorem write_to_buffer_invert_char_saturates :
  (b ← write_to_buffer true (zeroed LCD_SIZE) 0 1 [0x0F] 1 1 true; load b 0)
  = Some 0xFF
  /\ u8 (Z.lor 0x00 (Z.lnot 0x0F)) = 0xF0
  /\ merge_cell true true 0x00 0x0F = 0xFF.
Proof. repeat split; vm_compute; reflexivity. Qed.

(** ** Loads, stores and loops *)

Lemma load_Some_lt (a : list Z) (i v : Z) :
  load a i = Some v -> 0 <= i < Z.of_nat (length a).
Proof.
  unfold load. destruct (Z.leb_spec 0 i) as [Hi|Hi]; [|discriminate].
  intros H. apply lookup_lt_Some in H. lia.
Qed.

Lemma load_of_nat (a : list Z) (n : nat) : load a (Z.of_nat n) = a !! n.
Proof.
  unfold load. destruct (Z.leb_spec 0 (Z.of_nat n)); [|lia].
  now rewrite Nat2Z.id.
Qed.

Lemma load_in_range (a : list Z) (i : Z) :
  0 <= i < Z.of_nat (length a) -> exists v, load a i = Some v.
Proof.
  intros Hi. unfold load. destruct (Z.leb_spec 0 i); [|lia].
  destruct (lookup_lt_is_Some_2 a (Z.to_nat i)) as [v Hv]; [lia|]. eauto.
Qed.

Lemma store_in_range (a : list Z) (i v : Z) :
  0 <= i < Z.of_nat (length a) -> store a i v = Some (<[Z.to_nat i := v]> a).
Proof.
  intros Hi. unfold store.
  destruct (Z.leb_spec 0 i); [|lia].
  destruct (Z.ltb_spec i (Z.of_nat (length a))); [reflexivity|lia].
Qed.

Lemma store_Some (a : list Z) (i v : Z) (a' : list Z) :
  store a i v = Some a' ->
  0 <= i < Z.of_nat (length a) /\ a' = <[Z.to_nat i := v]> a.
Proof.
  unfold store.
  destruct (Z.leb_spec 0 i); [|discriminate].
  destruct (Z.ltb_spec i (Z.of_nat (length a))); [|discriminate].
  intros [= <-]. split; [lia|reflexivity].
Qed.

Lemma store_length (a : list Z) (i v : Z) (a' : list Z) :
  store a i v = Some a' -> length a' = length a.
Proof. intros [_ ->]%store_Some. apply length_insert. Qed.

Lemma load_store_eq (a : list Z) (i v : Z) (a' : list Z) :
  store a i v = Some a' -> load a' i = Some v.
Proof.
  intros [Hi ->]%store_Some. unfold load.
  destruct (Z.leb_spec 0 i); [|lia].
  apply list_lookup_insert_eq. lia.
Qed.

Lemma load_store_ne (a : list Z) (i v : Z) (a' : list Z) (k : Z) :
  store a i v = Some a' -> k <> i -> load a' k = load a k.
Proof.
  intros [Hi ->]%store_Some Hne. unfold load.
  destruct (Z.leb_spec 0 k); [|reflexivity].
  apply list_lookup_insert_ne. lia.
Qed.

Lemma length_zeroed (n : Z) : length (zeroed n) = Z.to_nat n.
Proof. apply length_replicate. Qed.

Lemma load_zeroed (n k : Z) : 0 <= k < n -> load (zeroed n) k = Some 0.
Proof.
  intros Hk. unfold load, zeroed. destruct (Z.leb_spec 0 k); [|lia].
  apply lookup_replicate_2. lia.
Qed.

Lemma foldM_app {A S : Type} (body : A -> S -> option S) (l1 l2 : list A) (s : S) :
  foldM body (l1 ++ l2) s = (s' ← foldM body l1 s; foldM body l2 s').
Proof.
  revert s. induction l1 as [|a l1 IH]; intros s; [reflexivity|].
  cbn. destruct (body a s) as [s1|]; [apply IH|reflexivity].
Qed.

Lemma foldM_fmap {A B S : Type} (g : A -> B) (body : B -> S -> option S)
    (l : list A) (s : S) :
  foldM body (g <$> l) s = foldM (fun a => body (g a)) l s.
Proof.
  revert s. induction l as [|a l IH]; intros s; [reflexivity|].
  cbn. destruct (body (g a) s) as [s1|]; [apply IH|reflexivity].
Qed.

Lemma foldM_bind {A B S : Type} (body : B -> S -> option S) (L : A -> list B)
    (l : list A) (s : S) :
  foldM (fun a s => foldM body (L a) s) l s = foldM body (l ≫= L) s.
Proof.
  revert s. induction l as [|a l IH]; intros s; [reflexivity|].
  cbn. rewrite foldM_app.
  destruct (foldM body (L a) s) as [s1|]; [apply IH|reflexivity].
Qed.

Lemma foldM_ext {A S : Type} (body1 body2 : A -> S -> option S) (l : list A) (s : S) :
  (forall a s, a ∈ l -> body1 a s = body2 a s) ->
  foldM body1 l s = foldM body2 l s.
Proof.
  revert s. induction l as [|a l IH]; intros s Hext; [reflexivity|].
  cbn. rewrite Hext by apply list_elem_of_here.
  destruct (body2 a s) as [s1|]; [|reflexivity].
  apply IH. intros b t Hb. apply Hext. now apply list_elem_of_further.
Qed.

(** The invariant rule: [Inv n s] holds of the state after [n] iterations. *)
Lemma foldM_invariant {A S : Type} (Inv : nat -> S -> Prop)
    (body : A -> S -> option S) (l : list A) (s : S) :
  Inv 0%nat s ->
  (forall n a s, l !! n = Some a -> Inv n s ->
                 exists s', body a s = Some s' /\ Inv (Datatypes.S n) s') ->
  exists s', foldM body l s = Some s' /\ Inv (length l) s'.
Proof.
  revert Inv s. induction l as [|a l IH]; intros Inv s H0 Hstep.
  - exists s. split; [reflexivity|exact H0].
  - destruct (Hstep 0%nat a s eq_refl H0) as (s1 & Hs1 & H1).
    destruct (IH (fun n => Inv (Datatypes.S n)) s1 H1) as (s' & Hs' & Hfin).
    + intros n b t Hb Ht. apply (Hstep (Datatypes.S n) b t Hb Ht).
    + exists s'. split; [|exact Hfin]. cbn. rewrite Hs1. exact Hs'.
Qed.

Lemma lookup_upto (lo hi : Z) (n : nat) (a : Z) :
  upto lo hi !! n = Some a -> a = lo + Z.of_nat n /\ lo + Z.of_nat n < hi.
Proof. unfold upto. intros [-> H]%lookup_seqZ. lia. Qed.

Lemma length_upto (lo hi : Z) : length (upto lo hi) = Z.to_nat (hi - lo).
Proof. apply length_seqZ. Qed.

Lemma elem_of_upto (lo hi k : Z) : k ∈ upto lo hi <-> lo <= k < hi.
Proof. unfold upto. rewrite elem_of_seqZ. lia. Qed.

(** ** PixelBuffer: [clear] *)

Lemma reverse_concat_replicate {A : Type} (n : nat) (f : list A) :
  reverse (concat (replicate n (reverse f))) = concat (replicate n f).
Proof.
  induction n as [|n IH]; [reflexivity|].
  rewrite replicate_S_end at 1. rewrite concat_app, reverse_app.
  change (concat [reverse f]) with (reverse f ++ []).
  rewrite app_nil_r, reverse_involutive, IH. reflexivity.
Qed.

Lemma insert_next_zero (b : list Z) (k : nat) :
  (k < length b)%nat ->
  <[k := 0]> (replicate k 0 ++ drop k b)
  = replicate (Datatypes.S k) 0 ++ drop (Datatypes.S k) b.
Proof.
  intros Hk. destruct (lookup_lt_is_Some_2 b k Hk) as [v Hv].
  rewrite (drop_S b v k Hv).
  rewrite insert_app_r_alt by (rewrite length_replicate; lia).
  rewrite length_replicate, Nat.sub_diag.
  change (<[0%nat := 0]> (v :: drop (Datatypes.S k) b)) with (0 :: drop (Datatypes.S k) b).
  rewrite replicate_S_end, <- app_assoc. reflexivity.
Qed.

(** The pin writes of one data-mode write of the byte [0x00]: mode-select
    high, chip-select active, eight zero bits each with a clock pulse,
    chip-select released. *)
Lemma write_frame_zero_data :
  write_frame 0x00 LCD_DATA
  = [(DC, true); (CE, false)]
    ++ concat (replicate 8 [(DIN, false); (CLK, false); (CLK, true)])
    ++ [(CE, true)].
Proof. reflexivity. Qed.

(** C9.  [clear] zeroes each of the 504 buffer bytes and, byte by byte,
    sends [0x00] to the device as a data-mode write: the pin history grows
    by exactly 504 data frames of the byte [0x00]; cursor and invert flag
    are untouched. *)
Theorem clear_zeroes_and_flushes (lcd : LcdDriver) :
  length (buffer lcd) = Z.to_nat LCD_SIZE ->
  exists lcd',
    clear lcd = Some lcd'
    /\ buffer lcd' = replicate 504 0x00
    /\ history lcd' = history lcd ++ concat (replicate 504 (write_frame 0x00 LCD_DATA))
    /\ _cursor_x lcd' = _cursor_x lcd
    /\ _cursor_y lcd' = _cursor_y lcd
    /\ inverttext lcd' = inverttext lcd.
Proof.
  intros Hlen. change (Z.to_nat LCD_SIZE) with 504%nat in Hlen.
  set (frame := reverse (write_frame 0x00 LCD_DATA)).
  destruct (foldM_invariant
    (fun n s =>
       buffer s = replicate n 0 ++ drop n (buffer lcd)
       /\ wire s = concat (replicate n frame) ++ wire lcd
       /\ _cursor_x s = _cursor_x lcd /\ _cursor_y s = _cursor_y lcd
       /\ inverttext s = inverttext lcd)
    (fun i lcd =>
       let lcd := write 0x00 LCD_DATA lcd in
       b ← store (buffer lcd) i 0x00;
       Some (with_buffer lcd b))
    (upto 0 LCD_SIZE) lcd) as (lcd' & Hrun & Hb & Hw & Hx & Hy & Hi).
  - cbn. rewrite drop_0. auto.
  - intros n a s Ha (Hb & Hw & Hx & Hy & Hi).
    apply lookup_upto in Ha as [-> Hn]. change LCD_SIZE with 504 in Hn.
    cbn zeta. rewrite Z.add_0_l.
    assert (Hlen' : length (buffer s) = 504%nat).
    { rewrite Hb, length_app, length_replicate, length_drop. lia. }
    change (buffer (write 0 LCD_DATA s)) with (buffer s).
    rewrite store_in_range by lia. cbn.
    eexists. split; [reflexivity|]. cbn. rewrite Nat2Z.id.
    repeat split; try assumption.
    + rewrite Hb. apply insert_next_zero. lia.
    + rewrite Hw. fold frame. now rewrite app_assoc.
  - exists lcd'. split; [exact Hrun|].
    rewrite length_upto in Hb, Hw. change (Z.to_nat (LCD_SIZE - 0)) with 504%nat in Hb, Hw.
    repeat split; try assumption.
    + rewrite Hb. rewrite drop_ge by lia. apply app_nil_r.
    + unfold history. rewrite Hw, reverse_app.
      unfold frame. now rewrite reverse_concat_replicate.
Qed.

Lemma clear_zeroes_and_flushes_witness :
  exists lcd',
    clear cleared = Some lcd'
    /\ buffer lcd' = replicate 504 0x00
    /\ history lcd' = history cleared ++ concat (replicate 504 (write_frame 0x00 LCD_DATA))
    /\ _cursor_x lcd' = _cursor_x cleared
    /\ _cursor_y lcd' = _cursor_y cleared
    /\ inverttext lcd' = inverttext cleared.
Proof. apply (clear_zeroes_and_flushes cleared). reflexivity. Defined.

(** ** BitShifter: the copy and the single-row branch *)

Lemma foldM_map_into (f : Z -> Z) (data : list Z) (ks : list Z) (nd : list Z) :
  (forall k, k ∈ ks ->
     0 <= k < Z.of_nat (length data) /\ k < Z.of_nat (length nd)) ->
  exists nd',
    foldM (map_into f data) ks nd = Some nd'
    /\ length nd' = length nd
    /\ (forall k, k ∈ ks -> load nd' k = f <$> load data k)
    /\ (forall k, k ∉ ks -> load nd' k = load nd k).
Proof.
  revert nd. induction ks as [|k ks IH]; intros nd Hin.
  - exists nd. split; [reflexivity|]. split; [reflexivity|]. split.
    + intros k Hk. now apply elem_of_nil in Hk.
    + reflexivity.
  - destruct (Hin k (list_elem_of_here _ _)) as [Hkd Hkn].
    destruct (load_in_range data k Hkd) as [d Hd].
    pose proof (store_in_range nd k (f d) ltac:(lia)) as Hst.
    set (nd1 := <[Z.to_nat k := f d]> nd) in Hst.
    destruct (IH nd1) as (nd' & Hrun & Hlen & Hset & Hkeep).
    { intros k' Hk'. rewrite (store_length _ _ _ _ Hst).
      apply Hin. now apply list_elem_of_further. }
    exists nd'. split; [|split; [|split]].
    + assert (Hk : map_into f data k nd = Some nd1)
        by (unfold map_into; rewrite Hd; exact Hst).
      cbn [foldM]. rewrite Hk. exact Hrun.
    + rewrite Hlen. apply (store_length _ _ _ _ Hst).
    + intros k' Hk'. destruct (decide (k' ∈ ks)) as [Hks|Hks]; [now apply Hset|].
      apply elem_of_cons in Hk' as [->|Hk']; [|contradiction].
      rewrite (Hkeep k Hks), (load_store_eq _ _ _ _ Hst), Hd. reflexivity.
    + intros k' Hk'. apply not_elem_of_cons in Hk' as [Hne Hks].
      rewrite (Hkeep k' Hks). apply (load_store_ne _ _ _ _ _ Hst Hne).
Qed.

Lemma elem_of_glyph_cells (cw rows k : Z) :
  k ∈ glyph_cells cw rows
  <-> exists i j, 0 <= i < cw /\ 0 <= j < rows /\ k = i + j * cw.
Proof.
  unfold glyph_cells. rewrite list_elem_of_bind. split.
  - intros (i & Hk & Hi). apply list_elem_of_fmap in Hk as (j & -> & Hj).
    apply elem_of_upto in Hi, Hj. eauto.
  - intros (i & j & Hi & Hj & ->). exists i. split.
    + apply list_elem_of_fmap. exists j. split; [reflexivity|].
      now apply elem_of_upto.
    + now apply elem_of_upto.
Qed.

Lemma glyph_cell_bound (cw rows i j : Z) :
  0 <= i < cw -> 0 <= j < rows -> 0 <= i + j * cw < cw * rows.
Proof. intros Hi Hj. nia. Qed.

Lemma shift_data_copy (data : list Z) (cw : Z) (nd : list Z) (bc : Z) :
  shift_data data cw nd 0 bc = foldM (map_into id data) (glyph_cells cw bc) nd.
Proof.
  unfold shift_data, glyph_cells. cbn [Z.eqb].
  rewrite <- foldM_bind. apply foldM_ext. intros i s _.
  now rewrite foldM_fmap.
Qed.

(** C5.  With [shift_value = 0], [shift_data] copies: for every column [i]
    and page row [j] of the glyph the output byte at [i + j * char_width] is
    the input byte at [i + j * char_width]; nothing else in [new_data]
    changes.  The arrays must hold the [char_width * bit_count] bytes the
    loops visit. *)
Theorem shift_data_zero_shift_is_copy (data : list Z) (char_width : Z)
    (new_data : list Z) (bit_count : Z) :
  0 <= char_width -> 0 <= bit_count ->
  char_width * bit_count <= Z.of_nat (length data) ->
  char_width * bit_count <= Z.of_nat (length new_data) ->
  exists new_data',
    shift_data data char_width new_data 0 bit_count = Some new_data'
    /\ length new_data' = length new_data
    /\ (forall i j, 0 <= i < char_width -> 0 <= j < bit_count ->
          exists d, load data (i + j * char_width) = Some d
                    /\ load new_data' (i + j * char_width) = Some d)
    /\ (forall k, char_width * bit_count <= k -> load new_data' k = load new_data k).
Proof.
  intros Hcw Hbc Hdata Hnd. rewrite shift_data_copy.
  destruct (foldM_map_into id data (glyph_cells char_width bit_count) new_data)
    as (nd' & Hrun & Hlen & Hset & Hkeep).
  { intros k (i & j & Hi & Hj & ->)%elem_of_glyph_cells.
    pose proof (glyph_cell_bound _ _ _ _ Hi Hj). lia. }
  exists nd'. repeat split; try assumption.
  - intros i j Hi Hj.
    pose proof (glyph_cell_bound _ _ _ _ Hi Hj) as Hb.
    destruct (load_in_range data (i + j * char_width) ltac:(lia)) as [d Hd].
    exists d. split; [exact Hd|].
    rewrite Hset, Hd; [reflexivity|].
    apply elem_of_glyph_cells. eauto.
  - intros k Hk. apply Hkeep.
    intros (i & j & Hi & Hj & ->)%elem_of_glyph_cells.
    pose proof (glyph_cell_bound _ _ _ _ Hi Hj). lia.
Qed.

Lemma shift_data_zero_shift_is_copy_witness :
  exists new_data',
    shift_data [1; 2; 3; 4; 5; 6] 3 (zeroed 6) 0 2 = Some new_data'
    /\ length new_data' = length (zeroed 6)
    /\ (forall i j, 0 <= i < 3 -> 0 <= j < 2 ->
          exists d, load [1; 2; 3; 4; 5; 6] (i + j * 3) = Some d
                    /\ load new_data' (i + j * 3) = Some d)
    /\ (forall k, 3 * 2 <= k -> load new_data' k = load (zeroed 6) k).
Proof.
  apply (shift_data_zero_shift_is_copy [1; 2; 3; 4; 5; 6] 3 (zeroed 6) 2);
    by_eval.
Defined.

(** When the arrays hold exactly the glyph, the copy is the whole array:
    [BitShifter(data, shift = 0) == data]. *)
Corollary shift_data_zero_shift_whole (data : list Z) (char_width : Z)
    (new_data : list Z) (bit_count : Z) :
  0 <= char_width -> 0 <= bit_count ->
  Z.of_nat (length data) = char_width * bit_count ->
  length new_data = length data ->
  shift_data data char_width new_data 0 bit_count = Some data.
Proof.
  intros Hcw Hbc Hdata Hnd. rewrite shift_data_copy.
  destruct (foldM_map_into id data (glyph_cells char_width bit_count) new_data)
    as (nd' & -> & Hlen & Hset & _).
  { intros k (i & j & Hi & Hj & ->)%elem_of_glyph_cells.
    pose proof (glyph_cell_bound _ _ _ _ Hi Hj). lia. }
  f_equal. apply list_eq. intros n.
  destruct (decide (n < length data)%nat) as [Hn|Hn].
  - assert (Hpos : 0 < char_width) by nia.
    assert (Hin : Z.of_nat n ∈ glyph_cells char_width bit_count).
    { apply elem_of_glyph_cells.
      exists (Z.of_nat n mod char_width), (Z.of_nat n / char_width).
      split; [apply Z.mod_pos_bound; lia|]. split.
      - split; [apply Z.div_pos; lia|]. apply Z.div_lt_upper_bound; lia.
      - rewrite (Z.div_mod (Z.of_nat n) char_width) at 1; lia. }
    pose proof (Hset _ Hin) as Hk. rewrite !load_of_nat in Hk.
    rewrite Hk. now destruct (data !! n).
  - rewrite !lookup_ge_None_2; [reflexivity|lia|lia].
Qed.

(** C7.  With [shift_value] in [1, 7] and [bit_count = 1], [shift_data]
    stores for each column [i] the single byte [data[i] >> shift_value]; the
    bits shifted out are dropped and no other byte of [new_data] is written,
    so no carry byte is emitted for a following page. *)
Theorem shift_data_single_row_drops_carry (data : list Z) (char_width : Z)
    (new_data : list Z) (shift_value : Z) :
  1 <= shift_value <= 7 ->
  0 <= char_width ->
  char_width <= Z.of_nat (length data) ->
  char_width <= Z.of_nat (length new_data) ->
  exists new_data',
    shift_data data char_width new_data shift_value 1 = Some new_data'
    /\ length new_data' = length new_data
    /\ (forall i, 0 <= i < char_width ->
          exists d, load data i = Some d
                    /\ load new_data' i = Some (u8 (Z.shiftr d shift_value))
                    /\ (is_u8 d -> load new_data' i = Some (Z.shiftr d shift_value)))
    /\ (forall k, char_width <= k -> load new_data' k = load new_data k).
Proof.
  intros Hs Hcw Hdata Hnd.
  assert (Heq : shift_data data char_width new_data shift_value 1
                = foldM (map_into (fun d => u8 (Z.shiftr d shift_value)) data)
                        (upto 0 char_width) new_data).
  { unfold shift_data. destruct (Z.eqb_spec shift_value 0); [lia|]. reflexivity. }
  rewrite Heq.
  destruct (foldM_map_into (fun d => u8 (Z.shiftr d shift_value)) data
              (upto 0 char_width) new_data) as (nd' & Hrun & Hlen & Hset & Hkeep).
  { intros k Hk%elem_of_upto. lia. }
  exists nd'. repeat split; try assumption.
  - intros i Hi.
    destruct (load_in_range data i ltac:(lia)) as [d Hd].
    assert (Hi' : load nd' i = Some (u8 (Z.shiftr d shift_value))).
    { rewrite Hset, Hd; [reflexivity|]. now apply elem_of_upto. }
    exists d. repeat split; try assumption.
    intros [Hd0 Hd1]. rewrite Hi'. f_equal. apply u8_id. split.
    + apply Z.shiftr_nonneg. lia.
    + rewrite Z.shiftr_div_pow2 by lia.
      apply Z.div_lt_upper_bound; [apply Z.pow_pos_nonneg; lia|].
      assert (1 <= 2 ^ shift_value) by (apply Z.pow_le_mono_r with (b := 0); lia).
      nia.
  - intros k Hk. apply Hkeep. rewrite elem_of_upto. lia.
Qed.

Lemma shift_data_single_row_drops_carry_witness :
  exists new_data',
    shift_data [0xFF; 0x81; 0x03] 3 (zeroed 3) 3 1 = Some new_data'
    /\ length new_data' = length (zeroed 3)
    /\ (forall i, 0 <= i < 3 ->
          exists d, load [0xFF; 0x81; 0x03] i = Some d
                    /\ load new_data' i = Some (u8 (Z.shiftr d 3))
                    /\ (is_u8 d -> load new_data' i = Some (Z.shiftr d 3)))
    /\ (forall k, 3 <= k -> load new_data' k = load (zeroed 3) k).
Proof.
  apply (shift_data_single_row_drops_carry [0xFF; 0x81; 0x03] 3 (zeroed 3) 3);
    by_eval.
Defined.

(** ** BitShifter: the carrying branch *)

Lemma load_rd (a : list Z) (k : Z) :
  0 <= k < Z.of_nat (length a) -> load a k = Some (rd a k).
Proof. intros Hk. unfold rd. destruct (load_in_range a k Hk) as [v ->]. reflexivity. Qed.

Lemma shift_data_carry_eq (data : list Z) (cw : Z) (nd : list Z) (s bc : Z) :
  s <> 0 -> bc <> 1 ->
  shift_data data cw nd s bc
  = foldM (fun i nd => foldM (carry_step data cw s i) (downto (bc - 1) 0) nd)
          (upto 0 cw) nd.
Proof.
  intros Hs Hbc. unfold shift_data.
  destruct (Z.eqb_spec s 0); [contradiction|].
  destruct (Z.eqb_spec bc 1); [contradiction|]. reflexivity.
Qed.

Lemma carry_step_spec (data : list Z) (cw s i j : Z) (nd : list Z) :
  0 <= i < cw -> 1 <= j ->
  i + j * cw < Z.of_nat (length nd) ->
  i + (j - 1) * cw < Z.of_nat (length data) ->
  exists nd2,
    carry_step data cw s i j nd = Some nd2
    /\ length nd2 = length nd
    /\ load nd2 (i + j * cw)
       = Some (u8 (Z.lor (rd nd (i + j * cw))
                         (Z.shiftr (rd data (i + (j - 1) * cw)) (8 - s))))
    /\ load nd2 (i + (j - 1) * cw)
       = Some (u8 (Z.lor (rd nd (i + (j - 1) * cw))
                         (Z.shiftl (rd data (i + (j - 1) * cw)) s)))
    /\ (forall k, k <> i + j * cw -> k <> i + (j - 1) * cw ->
                  load nd2 k = load nd k).
Proof.
  intros Hi Hj Hnd Hdata.
  assert (Hlow : 0 <= i + (j - 1) * cw) by nia.
  assert (Hup : i + (j - 1) * cw < i + j * cw) by nia.
  pose proof (load_rd nd (i + j * cw) ltac:(lia)) as Hhi.
  pose proof (load_rd data (i + (j - 1) * cw) ltac:(lia)) as Hd.
  pose proof (load_rd nd (i + (j - 1) * cw) ltac:(lia)) as Hlo.
  set (v1 := u8 (Z.lor (rd nd (i + j * cw))
                       (Z.shiftr (rd data (i + (j - 1) * cw)) (8 - s)))).
  pose proof (store_in_range nd (i + j * cw) v1 ltac:(lia)) as Hst1.
  set (nd1 := <[Z.to_nat (i + j * cw) := v1]> nd) in Hst1.
  pose proof (store_length _ _ _ _ Hst1) as Hlen1.
  assert (Hlo1 : load nd1 (i + (j - 1) * cw) = Some (rd nd (i + (j - 1) * cw))).
  { rewrite (load_store_ne _ _ _ _ _ Hst1); [exact Hlo|lia]. }
  set (v2 := u8 (Z.lor (rd nd (i + (j - 1) * cw))
                       (Z.shiftl (rd data (i + (j - 1) * cw)) s))).
  pose proof (store_in_range nd1 (i + (j - 1) * cw) v2 ltac:(lia)) as Hst2.
  set (nd2 := <[Z.to_nat (i + (j - 1) * cw) := v2]> nd1) in Hst2.
  exists nd2. split; [|split; [|split; [|split]]].
  - unfold carry_step. rewrite Hhi, Hd. cbn [mbind option_bind].
    fold v1. rewrite Hst1. cbn [mbind option_bind].
    rewrite Hlo1. cbn [mbind option_bind]. exact Hst2.
  - rewrite (store_length _ _ _ _ Hst2). exact Hlen1.
  - rewrite (load_store_ne _ _ _ _ _ Hst2) by lia.
    apply (load_store_eq _ _ _ _ Hst1).
  - apply (load_store_eq _ _ _ _ Hst2).
  - intros k Hk1 Hk2.
    rewrite (load_store_ne _ _ _ _ _ Hst2) by exact Hk2.
    apply (load_store_ne _ _ _ _ _ Hst1). exact Hk1.
Qed.

Lemma rd_eq (a b : list Z) (k : Z) : load a k = load b k -> rd a k = rd b k.
Proof. unfold rd. now intros ->. Qed.

(** One column: the inner loop from row [n] down to row 1. *)
Lemma carry_column (data : list Z) (cw s i : Z) (n : nat) :
  forall nd : list Z,
  0 <= i < cw ->
  i + Z.of_nat n * cw < Z.of_nat (length nd) ->
  i + (Z.of_nat n - 1) * cw < Z.of_nat (length data) ->
  exists nd',
    foldM (carry_step data cw s i) (reverse (seqZ 1 (Z.of_nat n))) nd = Some nd'
    /\ length nd' = length nd
    /\ (forall r, 0 <= r <= Z.of_nat n ->
          load nd' (i + r * cw)
          = Some (shifted_cell s (Z.of_nat n) r (rd nd (i + r * cw))
                               (rd data (i + r * cw))
                               (rd data (i + (r - 1) * cw))))
    /\ (forall k, (forall r, 0 <= r <= Z.of_nat n -> k <> i + r * cw) ->
                  load nd' k = load nd k).
Proof.
  induction n as [|n IH]; intros nd Hi Hnd Hdata.
  - exists nd. split; [reflexivity|]. split; [reflexivity|]. split; [|reflexivity].
    intros r Hr. assert (r = 0) as -> by lia.
    unfold shifted_cell. cbn. apply load_rd. lia.
  - rewrite seqZ_S, reverse_app. cbn [reverse rev_append app foldM].
    change (rev_append [1 + Z.of_nat n] []) with [1 + Z.of_nat n].
    cbn [app foldM].
    destruct (carry_step_spec data cw s i (1 + Z.of_nat n) nd)
      as (nd2 & Hstep & Hlen2 & Htop & Hbelow & Hrest); [lia..|].
    replace (1 + Z.of_nat n - 1) with (Z.of_nat n) in Hbelow, Hrest by lia.
    destruct (IH nd2) as (nd' & Hrun & Hlen & Hcol & Hkeep); [nia..|].
    exists nd'. split; [|split; [|split]].
    + rewrite Hstep. exact Hrun.
    + now rewrite Hlen.
    + intros r Hr.
      destruct (Z.eq_dec r (Z.of_nat (S n))) as [->|Hne].
      * rewrite Hkeep by (intros r' Hr'; nia).
        replace (Z.of_nat (S n)) with (1 + Z.of_nat n) by lia.
        rewrite Htop. unfold shifted_cell.
        rewrite Z.ltb_irrefl.
        destruct (Z.ltb_spec 0 (1 + Z.of_nat n)); [|lia].
        replace (1 + Z.of_nat n - 1) with (Z.of_nat n) by lia. reflexivity.
      * rewrite Hcol by lia. f_equal. unfold shifted_cell.
        destruct (Z.eq_dec r (Z.of_nat n)) as [->|Hne'].
        -- rewrite Z.ltb_irrefl.
           destruct (Z.ltb_spec (Z.of_nat n) (Z.of_nat (S n))); [|lia].
           assert (Hrd : rd nd2 (i + Z.of_nat n * cw)
                         = u8 (Z.lor (rd nd (i + Z.of_nat n * cw))
                                     (Z.shiftl (rd data (i + Z.of_nat n * cw)) s)))
             by (unfold rd at 1; rewrite Hbelow; reflexivity).
           rewrite Hrd. reflexivity.
        -- destruct (Z.ltb_spec r (Z.of_nat n)); [|lia].
           destruct (Z.ltb_spec r (Z.of_nat (S n))); [|lia].
           rewrite (rd_eq nd2 nd); [reflexivity|].
           apply Hrest; nia.
    + intros k Hk. rewrite Hkeep.
      * apply Hrest.
        -- replace (1 + Z.of_nat n) with (Z.of_nat (S n)) by lia. apply Hk. lia.
        -- apply Hk. lia.
      * intros r Hr. apply Hk. lia.
Qed.

Lemma cell_column_inj (cw i r m r' : Z) :
  0 <= i < cw -> 0 <= m < cw -> i + r * cw = m + r' * cw -> i = m.
Proof.
  intros Hi Hm Heq.
  rewrite <- (Z.mod_small i cw), <- (Z.mod_small m cw) by lia.
  rewrite <- (Z.mod_add i r cw), <- (Z.mod_add m r' cw) by lia.
  now rewrite Heq.
Qed.

(** All columns: the second branch on arbitrary contents of [new_data],
    for a glyph of [n + 1] destination rows. *)
Lemma shift_data_carry (data : list Z) (cw : Z) (nd : list Z) (s : Z) (n : nat) :
  s <> 0 -> (1 <= n)%nat -> 0 <= cw ->
  cw * (Z.of_nat n + 1) <= Z.of_nat (length nd) ->
  cw * Z.of_nat n <= Z.of_nat (length data) ->
  exists nd',
    shift_data data cw nd s (Z.of_nat n + 1) = Some nd'
    /\ length nd' = length nd
    /\ (forall i r, 0 <= i < cw -> 0 <= r <= Z.of_nat n ->
          load nd' (i + r * cw)
          = Some (shifted_cell s (Z.of_nat n) r (rd nd (i + r * cw))
                               (rd data (i + r * cw))
                               (rd data (i + (r - 1) * cw))))
    /\ (forall k, cw * (Z.of_nat n + 1) <= k -> load nd' k = load nd k).
Proof.
  intros Hs Hn Hcw Hnd Hdata.
  rewrite shift_data_carry_eq by lia.
  unfold downto. replace (Z.of_nat n + 1 - 1 - 0) with (Z.of_nat n) by lia.
  change (0 + 1) with 1.
  destruct (foldM_invariant
    (fun m ndm =>
       length ndm = length nd
       /\ (forall i r, 0 <= i < cw -> 0 <= r <= Z.of_nat n ->
             load ndm (i + r * cw)
             = if i <? Z.of_nat m
               then Some (shifted_cell s (Z.of_nat n) r (rd nd (i + r * cw))
                                       (rd data (i + r * cw))
                                       (rd data (i + (r - 1) * cw)))
               else load nd (i + r * cw))
       /\ (forall k, cw * (Z.of_nat n + 1) <= k -> load ndm k = load nd k))
    (fun i nd => foldM (carry_step data cw s i) (reverse (seqZ 1 (Z.of_nat n))) nd)
    (upto 0 cw) nd) as (nd' & Hrun & Hlen & Hcells & Hkeep).
  - split; [reflexivity|]. split; [|reflexivity].
    intros i r Hi Hr. destruct (Z.ltb_spec i (Z.of_nat 0)); [lia|reflexivity].
  - intros m a ndm Ha (Hlen & Hcells & Hkeep).
    apply lookup_upto in Ha as [-> Hm]. rewrite Z.add_0_l in *.
    destruct (carry_column data cw s (Z.of_nat m) n ndm)
      as (nd' & Hrun & Hlen' & Hcol & Hframe); [nia..|].
    exists nd'. split; [exact Hrun|]. split; [lia|]. split.
    + intros i r Hi Hr.
      destruct (Z.eq_dec i (Z.of_nat m)) as [->|Hne].
      * destruct (Z.ltb_spec (Z.of_nat m) (Z.of_nat (S m))); [|lia].
        rewrite (Hcol r Hr). do 2 f_equal. apply rd_eq.
        rewrite (Hcells (Z.of_nat m) r) by lia.
        now rewrite Z.ltb_irrefl.
      * rewrite Hframe.
        -- rewrite (Hcells i r Hi Hr).
           destruct (Z.ltb_spec i (Z.of_nat m)), (Z.ltb_spec i (Z.of_nat (S m)));
             try reflexivity; lia.
        -- intros r' Hr' Heq. apply Hne.
           apply (cell_column_inj cw i r (Z.of_nat m) r'); lia.
    + intros k Hk. rewrite Hframe; [now apply Hkeep|].
      intros r' Hr'. nia.
  - exists nd'. split; [exact Hrun|]. split; [exact Hlen|]. split; [|exact Hkeep].
    intros i r Hi Hr. rewrite (Hcells i r Hi Hr).
    rewrite length_upto.
    destruct (Z.ltb_spec i (Z.of_nat (Z.to_nat (cw - 0)))); [reflexivity|lia].
Qed.

(** The carrying branch row by row.  For [shift_value] in [1, 7] and
    [bit_count > 1], on the zero-initialised [new_data] the callers pass:
    destination row 0 is [source[0] << shift_value]; each row [j] with
    [1 <= j <= bit_count - 2] is
    [(source[j] << shift_value) | (source[j-1] >> (8 - shift_value))];
    the last row [bit_count - 1] is the carry
    [source[bit_count - 2] >> (8 - shift_value)] alone: source row
    [bit_count - 1] is never read.  Every byte is the low 8 bits of the
    expression. *)
Lemma shift_data_carry_rows (data : list Z) (char_width shift_value bit_count : Z) :
  1 <= shift_value <= 7 -> 1 < bit_count -> 0 <= char_width ->
  char_width * (bit_count - 1) <= Z.of_nat (length data) ->
  exists new_data',
    shift_data data char_width (zeroed (char_width * bit_count)) shift_value bit_count
    = Some new_data'
    /\ Z.of_nat (length new_data') = char_width * bit_count
    /\ forall i, 0 <= i < char_width ->
         (exists d0,
            load data i = Some d0
            /\ load new_data' i = Some (u8 (Z.shiftl d0 shift_value)))
         /\ (forall j, 1 <= j <= bit_count - 2 ->
               exists dj dprev,
                 load data (i + j * char_width) = Some dj
                 /\ load data (i + (j - 1) * char_width) = Some dprev
                 /\ load new_data' (i + j * char_width)
                    = Some (u8 (Z.lor (Z.shiftl dj shift_value)
                                      (Z.shiftr dprev (8 - shift_value)))))
         /\ (exists dprev,
               load data (i + (bit_count - 2) * char_width) = Some dprev
               /\ load new_data' (i + (bit_count - 1) * char_width)
                  = Some (u8 (Z.shiftr dprev (8 - shift_value)))).
Proof.
  intros Hs Hbc Hcw Hdata.
  set (n := Z.to_nat (bit_count - 1)).
  assert (Hn : Z.of_nat n = bit_count - 1) by lia.
  destruct (shift_data_carry data char_width (zeroed (char_width * bit_count))
              shift_value n) as (nd' & Hrun & Hlen & Hcells & _);
    [lia | lia | lia | rewrite length_zeroed; nia | nia |].
  replace (Z.of_nat n + 1) with bit_count in Hrun by lia.
  exists nd'. split; [exact Hrun|]. split.
  { rewrite Hlen, length_zeroed. nia. }
  intros i Hi.
  assert (Hz : forall r, 0 <= r <= Z.of_nat n ->
                 rd (zeroed (char_width * bit_count)) (i + r * char_width) = 0).
  { intros r Hr. unfold rd. rewrite load_zeroed by nia. reflexivity. }
  split; [|split].
  - exists (rd data i). split; [apply load_rd; nia|].
    specialize (Hcells i 0 Hi ltac:(lia)).
    rewrite Z.mul_0_l, Z.add_0_r in Hcells. rewrite Hcells. f_equal.
    pose proof (Hz 0 ltac:(lia)) as Hz0. rewrite Z.mul_0_l, Z.add_0_r in Hz0.
    unfold shifted_cell. rewrite Hz0.
    destruct (Z.ltb_spec 0 (Z.of_nat n)); [|lia]. rewrite Z.ltb_irrefl.
    now rewrite Z.lor_0_l.
  - intros j Hj.
    exists (rd data (i + j * char_width)), (rd data (i + (j - 1) * char_width)).
    split; [apply load_rd; nia|]. split; [apply load_rd; nia|].
    rewrite (Hcells i j Hi) by lia. f_equal.
    unfold shifted_cell. rewrite Hz by lia.
    destruct (Z.ltb_spec j (Z.of_nat n)); [|lia].
    destruct (Z.ltb_spec 0 j); [|lia].
    now rewrite Z.lor_0_l, (u8_lor (u8 _)), u8_idem, <- u8_lor.
  - exists (rd data (i + (bit_count - 2) * char_width)).
    split; [apply load_rd; nia|].
    replace (bit_count - 1) with (Z.of_nat n) by lia.
    rewrite (Hcells i (Z.of_nat n) Hi) by lia. f_equal.
    unfold shifted_cell. rewrite Hz by lia.
    rewrite Z.ltb_irrefl. destruct (Z.ltb_spec 0 (Z.of_nat n)); [|lia].
    replace (Z.of_nat n - 1) with (bit_count - 2) by lia.
    now rewrite Z.lor_0_l.
Qed.

Lemma shift_data_carry_rows_witness :
  exists new_data',
    shift_data [0xFF; 0x81; 0x03; 0x04] 2 (zeroed (2 * 3)) 3 3 = Some new_data'
    /\ Z.of_nat (length new_data') = 2 * 3
    /\ forall i, 0 <= i < 2 ->
         (exists d0,
            load [0xFF; 0x81; 0x03; 0x04] i = Some d0
            /\ load new_data' i = Some (u8 (Z.shiftl d0 3)))
         /\ (forall j, 1 <= j <= 3 - 2 ->
               exists dj dprev,
                 load [0xFF; 0x81; 0x03; 0x04] (i + j * 2) = Some dj
                 /\ load [0xFF; 0x81; 0x03; 0x04] (i + (j - 1) * 2) = Some dprev
                 /\ load new_data' (i + j * 2)
                    = Some (u8 (Z.lor (Z.shiftl dj 3) (Z.shiftr dprev (8 - 3)))))
         /\ (exists dprev,
               load [0xFF; 0x81; 0x03; 0x04] (i + (3 - 2) * 2) = Some dprev
               /\ load new_data' (i + (3 - 1) * 2)
                  = Some (u8 (Z.shiftr dprev (8 - 3)))).
Proof.
  apply (shift_data_carry_rows [0xFF; 0x81; 0x03; 0x04] 2 3 3); by_eval.
Defined.

(** C6 (the code departs from the claim).  The claim gives every
    destination row [j >= 1] of the carrying branch the byte
    [(source[j] << shift_value) | (source[j-1] >> (8 - shift_value))].  The
    last destination row gets the carry alone: the loop over the source rows
    stops at [bit_count - 2] and source row [bit_count - 1] is never read.
    [put_char_xy] of a glyph one column wide and nine pixels high at [y = 4]
    resolves pages 0 and 1 and calls [shift_data] with the data
    [0xFF, 0x01], width 1, shift 4 and [bit_count = 2]: the result is
    [0xF0, 0x0F] whatever the second source byte is, where the claim has
    [0x1F] in row 1, and pixel row 12 of the display, the ninth row of the
    glyph, stays off.  At [y = 0] the copy branch draws that row, on pixel
    row 8. *)
Theorem shift_data_carry_drops_last_source_row :
  find_affected_rows 4 (char_height column_1x9) = 3
  /\ count_bits 3 = 2
  /\ shift_data (data column_1x9) 1 (zeroed (1 * 2)) 4 2 = Some [0xF0; 0x0F]
  /\ (forall d, shift_data [0xFF; d] 1 (zeroed (1 * 2)) 4 2 = Some [0xF0; 0x0F])
  /\ u8 (Z.lor (Z.shiftl 0x01 4) (Z.shiftr 0xFF (8 - 4))) = 0x1F
  /\ (exists lcd',
        put_char_xy column_1x9 0 4 cleared = Some lcd'
        /\ load (buffer lcd') 0 = Some 0xF0
        /\ load (buffer lcd') 84 = Some 0x0F
        /\ pixel (buffer lcd') 0 11 = Some true
        /\ pixel (buffer lcd') 0 12 = Some false)
  /\ (exists lcd',
        put_char_xy column_1x9 0 0 cleared = Some lcd'
        /\ load (buffer lcd') 0 = Some 0xFF
        /\ load (buffer lcd') 84 = Some 0x01
        /\ pixel (buffer lcd') 0 8 = Some true).
Proof.
  split; [reflexivity|]. split; [reflexivity|]. split; [reflexivity|].
  split; [intros d; reflexivity|]. split; [reflexivity|]. split.
  - destruct (put_char_xy column_1x9 0 4 cleared) as [lcd'|] eqn:E;
      [|vm_compute in E; discriminate E].
    exists lcd'. split; [reflexivity|].
    assert (Hb : buffer lcd' = buffer (default cleared (put_char_xy column_1x9 0 4 cleared)))
      by now rewrite E.
    rewrite Hb. vm_compute. repeat split.
  - destruct (put_char_xy column_1x9 0 0 cleared) as [lcd'|] eqn:E;
      [|vm_compute in E; discriminate E].
    exists lcd'. split; [reflexivity|].
    assert (Hb : buffer lcd' = buffer (default cleared (put_char_xy column_1x9 0 0 cleared)))
      by now rewrite E.
    rewrite Hb. vm_compute. repeat split.
Qed.

(** ** Text: unsupported characters *)


Lemma glyph_index_range (c : Z) : 0 <= glyph_index c <= 94.
Proof.
  unfold glyph_index.
  destruct (Z.ltb_spec c 32), (Z.gtb_spec c 126); cbn; lia.
Qed.

Lemma load_glyph_in_range (f : font) (i : Z) :
  0 <= i < Z.of_nat (length (glyphs f)) -> is_Some (load_glyph f i).
Proof.
  intros Hi. unfold load_glyph. destruct (Z.leb_spec 0 i); [|lia].
  apply lookup_lt_is_Some_2. lia.
Qed.

Section Print.

Variables FontMega FontHuge FontLarge : font.





End Print.

(** ** Text: the height handed to the page resolver *)



(** The consequence on the display: the eight-pixel glyph of a five-column
    font printed at [y = 1] spans rows 1 to 8, pages 0 and 1, but only
    page 0 is resolved ([find_affected_rows 1 5]), so the single-row branch
    of [shift_data] runs and page 1 stays empty. *)
Example print_buffer_five_columns_at_row_1 :
  find_affected_rows 1 5 = 1
  /\ (lcd ← print_buffer [65] 0 1 five_column_font cleared;
      Some (take 5 (buffer lcd), take 5 (drop 84 (buffer lcd))))
     = Some (replicate 5 0x7F, replicate 5 0x00).
Proof. split; vm_compute; reflexivity. Qed.

(** ** Placement at the display width *)

Lemma foldM_both {A S T : Type} (R : nat -> S -> T -> Prop)
    (body1 : A -> S -> option S) (body2 : A -> T -> option T)
    (l : list A) (s : S) (t : T) :
  R 0%nat s t ->
  (forall n a s t, l !! n = Some a -> R n s t ->
                   both (R (Datatypes.S n)) (body1 a s) (body2 a t)) ->
  both (R (length l)) (foldM body1 l s) (foldM body2 l t).
Proof.
  revert R s t. induction l as [|a l IH]; intros R s t H0 Hstep; [exact H0|].
  cbn [foldM length].
  pose proof (Hstep 0%nat a s t eq_refl H0) as H1.
  destruct (body1 a s) as [s1|], (body2 a t) as [t1|]; cbn in *; try easy.
  apply (IH (fun n => R (Datatypes.S n))); [exact H1|].
  intros n b u v Hb. apply (Hstep (Datatypes.S n) b u v Hb).
Qed.

(** The row scan on a mask of the six pages and on the same mask moved up
    by one page. *)
Lemma scan_row_next_page (m : Z) :
  1 <= m < 64 ->
  let '(row, m') := scan_row (downto 7 (-1)) m in
  scan_row (downto 7 (-1)) (2 * m) = (row + 1, 2 * m')
  /\ 0 <= m' < 64
  /\ count_bits m' = count_bits m - 1.
Proof.
  intros Hm.
  assert (Hall : forallb (fun m =>
             let '(row, m') := scan_row (downto 7 (-1)) m in
             let '(row2, m2) := scan_row (downto 7 (-1)) (2 * m) in
             (row2 =? row + 1) && (m2 =? 2 * m') && (0 <=? m') && (m' <? 64)
             && (count_bits m' =? count_bits m - 1))
           (upto 1 64) = true) by (vm_compute; reflexivity).
  pose proof (forallb_upto _ _ _ Hall m Hm) as H. cbv beta in H.
  destruct (scan_row (downto 7 (-1)) m) as [row m'].
  destruct (scan_row (downto 7 (-1)) (2 * m)) as [row2 m2].
  repeat (apply andb_true_iff in H as [H ?]).
  apply Z.eqb_eq in H as ->.
  repeat match goal with
         | E : (_ =? _) = true |- _ => apply Z.eqb_eq in E
         | E : (_ <=? _) = true |- _ => apply Z.leb_le in E
         | E : (_ <? _) = true |- _ => apply Z.ltb_lt in E
         end.
  subst m2. repeat split; assumption.
Qed.

Lemma count_bits_next_page (m : Z) :
  0 <= m < 64 -> count_bits (2 * m) = count_bits m.
Proof.
  intros Hm.
  assert (Hall : forallb (fun m => count_bits (2 * m) =? count_bits m)
                         (upto 0 64) = true) by (vm_compute; reflexivity).
  pose proof (forallb_upto _ _ _ Hall m Hm) as H. cbv beta in H.
  now apply Z.eqb_eq in H.
Qed.

Lemma find_affected_rows_next_page (y h : Z) :
  0 <= y -> 1 <= h -> y + h < 40 ->
  find_affected_rows (y + 8) h = 2 * find_affected_rows y h
  /\ 0 <= find_affected_rows y h < 64.
Proof.
  intros Hy Hh Hfit.
  assert (Hall : forallb (fun y => forallb (fun h =>
             (40 <=? y + h)
             || ((find_affected_rows (y + 8) h =? 2 * find_affected_rows y h)
                 && (0 <=? find_affected_rows y h)
                 && (find_affected_rows y h <? 64)))
           (upto 1 40)) (upto 0 40) = true) by (vm_compute; reflexivity).
  pose proof (forallb_upto _ _ _ Hall y ltac:(lia)) as Hrow. cbv beta in Hrow.
  pose proof (forallb_upto _ _ _ Hrow h ltac:(lia)) as H. cbv beta in H.
  apply orb_true_iff in H as [H%Z.leb_le | H]; [lia|].
  apply andb_true_iff in H as [H H3]. apply andb_true_iff in H as [H1 H2].
  apply Z.eqb_eq in H1. apply Z.leb_le in H2. apply Z.ltb_lt in H3. lia.
Qed.

(** The compositor addresses cells linearly and checks nothing: column 84
    of a page is column 0 of the next. *)
Lemma write_to_buffer_at_width (inv : bool) (buf : list Z) (m : Z)
    (nd : list Z) (cw : Z) (char_mode : bool) :
  0 <= m < 64 ->
  write_to_buffer inv buf LCD_WIDTH m nd cw (count_bits m) char_mode
  = write_to_buffer inv buf 0 (2 * m) nd cw (count_bits m) char_mode.
Proof.
  intros Hm. unfold write_to_buffer.
  set (body := fun x (_ : Z) st =>
         let '(row, affected_rows) := scan_row (downto 7 (-1)) (wtb_rows st) in
         let new_data_row := wtb_data_row st in
         buffer ← foldM (fun j buffer =>
                           d ← load nd (j + new_data_row * cw);
                           cell ← load buffer (x + row * LCD_WIDTH + j);
                           store buffer (x + row * LCD_WIDTH + j)
                                 (merge_cell inv char_mode cell d))
                        (upto 0 cw) (wtb_buffer st);
         Some {| wtb_buffer := buffer; wtb_rows := affected_rows;
                 wtb_data_row := new_data_row - 1 |}).
  change (foldM (body LCD_WIDTH) (upto 0 (count_bits m))
                {| wtb_buffer := buf; wtb_rows := m;
                   wtb_data_row := count_bits m - 1 |}
          ≫= (fun st => Some (wtb_buffer st))
          = foldM (body 0) (upto 0 (count_bits m))
                  {| wtb_buffer := buf; wtb_rows := 2 * m;
                     wtb_data_row := count_bits m - 1 |}
            ≫= (fun st => Some (wtb_buffer st))).
  pose proof (foldM_both
    (fun k s t =>
       wtb_buffer s = wtb_buffer t
       /\ wtb_data_row s = wtb_data_row t
       /\ wtb_rows t = 2 * wtb_rows s
       /\ 0 <= wtb_rows s < 64
       /\ count_bits (wtb_rows s) = count_bits m - Z.of_nat k)
    (body LCD_WIDTH) (body 0) (upto 0 (count_bits m))
    {| wtb_buffer := buf; wtb_rows := m; wtb_data_row := count_bits m - 1 |}
    {| wtb_buffer := buf; wtb_rows := 2 * m; wtb_data_row := count_bits m - 1 |})
    as Hboth.
  lapply Hboth; [clear Hboth; intros Hboth; lapply Hboth; [clear Hboth; intros Hboth|]|].
  - destruct (foldM (body LCD_WIDTH) _ _) as [s|], (foldM (body 0) _ _) as [t|];
      cbn in Hboth; try easy.
    cbn. f_equal. apply Hboth.
  - intros k a [b1 r1 n1] [b2 r2 n2] Ha (Hb & Hn & Hr & Hr1 & Hc).
    cbn [wtb_buffer wtb_rows wtb_data_row] in *. subst b2 n2 r2.
    apply lookup_upto in Ha as [_ Hk].
    assert (Hpos : 1 <= r1 < 64).
    { destruct (Z.eq_dec r1 0) as [->|Hne]; [|lia].
      change (count_bits 0) with 0 in Hc. lia. }
    pose proof (scan_row_next_page r1 Hpos) as Hscan.
    unfold body. cbn [wtb_buffer wtb_rows wtb_data_row].
    destruct (scan_row (downto 7 (-1)) r1) as [row m'].
    destruct Hscan as (-> & Hm' & Hcount).
    rewrite (foldM_ext _ (fun j buffer =>
                 d ← load nd (j + n1 * cw);
                 cell ← load buffer (0 + (row + 1) * LCD_WIDTH + j);
                 store buffer (0 + (row + 1) * LCD_WIDTH + j)
                       (merge_cell inv char_mode cell d))).
    + destruct (foldM _ (upto 0 cw) b1) as [b|]; cbn; [|exact I].
      repeat split; try lia.
    + intros j b _.
      replace (LCD_WIDTH + row * LCD_WIDTH + j)
        with (0 + (row + 1) * LCD_WIDTH + j) by lia.
      reflexivity.
  - cbn. repeat split; lia.
Qed.

(** C3, as the code has it.  [put_char_xy] validates nothing and has no
    way to report a condition; the cells of a placement are addressed
    linearly.  So a placement at [x = 84], the display width, is carried
    out, and it is the placement at column 0 one page (eight rows) lower:
    for a glyph of height at least 1 placed at [y >= 0] with
    [y + char_height < 40], the two calls have the same outcome. *)
Theorem put_char_xy_at_width_is_next_page (c : custom_char) (y : Z)
    (lcd : LcdDriver) :
  0 <= y -> 1 <= char_height c -> y + char_height c < 40 ->
  put_char_xy c LCD_WIDTH y lcd = put_char_xy c 0 (y + 8) lcd.
Proof.
  intros Hy Hh Hfit. unfold put_char_xy.
  rewrite (u8_id (char_height c)) by (unfold is_u8; lia).
  destruct (find_affected_rows_next_page y (char_height c) Hy Hh Hfit)
    as [Hnext Hrange].
  rewrite Hnext.
  rewrite (count_bits_next_page _ Hrange).
  replace (Z.rem (y + 8) 8) with (Z.rem y 8).
  2:{ rewrite !Z.rem_mod_nonneg by lia.
      replace (y + 8) with (y + 1 * 8) by lia. now rewrite Z.mod_add. }
  destruct (shift_data _ _ _ _ _) as [nd|]; [|reflexivity].
  cbn [mbind option_bind].
  now rewrite write_to_buffer_at_width.
Qed.

Lemma put_char_xy_at_width_is_next_page_witness :
  put_char_xy all_ones_5x8 LCD_WIDTH 4 cleared
  = put_char_xy all_ones_5x8 0 (4 + 8) cleared.
Proof.
  apply (put_char_xy_at_width_is_next_page all_ones_5x8 4 cleared); by_eval.
Defined.

(** C3 as stated fails: the all-ones glyph placed at [(x = 84, y = 4)] on
    the cleared buffer is written, into columns 0 to 4 of pages 1 and 2
    (bytes 84.. and 168..), and nothing is reported. *)
Lemma put_char_xy_at_width_counterexample :
  ~ (forall (c : custom_char) (x y : Z) (lcd lcd' : LcdDriver),
       LCD_WIDTH <= x ->
       put_char_xy c x y lcd = Some lcd' -> buffer lcd' = buffer lcd)
  /\ (lcd' ← put_char_xy all_ones_5x8 84 4 cleared; Some (buffer lcd'))
     = Some (replicate 84 0x00 ++ replicate 5 0xF0 ++ replicate 79 0x00
             ++ replicate 5 0x0F ++ replicate 331 0x00).
Proof.
  assert (Hrun : (lcd' ← put_char_xy all_ones_5x8 84 4 cleared; Some (buffer lcd'))
                 = Some (replicate 84 0x00 ++ replicate 5 0xF0 ++ replicate 79 0x00
                         ++ replicate 5 0x0F ++ replicate 331 0x00))
    by (vm_compute; reflexivity).
  split; [|exact Hrun].
  intros H.
  destruct (put_char_xy all_ones_5x8 84 4 cleared) as [lcd'|] eqn:E;
    [|discriminate Hrun].
  specialize (H all_ones_5x8 84 4 cleared lcd' ltac:(by_eval) E).
  cbn [mbind option_bind] in Hrun. rewrite H in Hrun.
  vm_compute in Hrun. discriminate Hrun.
Qed.

(** ** The page-aligned scenario *)

(** C4 (the code departs from the claim).  The 5x8 all-ones glyph at
    [(x = 10, y = 0)] on the cleared buffer: [find_affected_rows 0 8]
    marks pages 0 and 1, so [shift_data] copies two rows of five bytes out
    of the five-byte glyph, reading bytes 5 to 9 outside the array (a fault
    here).  When the glyph's bytes are followed in memory by other bytes,
    say 1, 2, 3, 4, 5, page 0 gets [0xFF] in columns 10 to 14 and those
    following bytes are ORed into page 1, columns 10 to 14. *)
Theorem put_char_xy_page_aligned_overreads :
  find_affected_rows 0 8 = 3
  /\ put_char_xy all_ones_5x8 10 0 cleared = None
  /\ (lcd' ← put_char_xy {| char_width := 5; char_height := 8;
                            data := replicate 5 0xFF ++ [1; 2; 3; 4; 5] |}
                         10 0 cleared;
      Some (buffer lcd'))
     = Some (replicate 10 0x00 ++ replicate 5 0xFF ++ replicate 79 0x00
             ++ [1; 2; 3; 4; 5] ++ replicate 405 0x00).
Proof. repeat split; vm_compute; reflexivity. Qed.

(** The scenario one page row lower is as the specification expects:
    at [(x = 10, y = 4)] the glyph straddles pages 0 and 1. *)
Example put_char_xy_straddling :
  (lcd' ← put_char_xy all_ones_5x8 10 4 cleared; Some (buffer lcd'))
  = Some (replicate 10 0x00 ++ replicate 5 0xF0 ++ replicate 79 0x00
          ++ replicate 5 0x0F ++ replicate 405 0x00).
Proof. vm_compute. reflexivity. Qed.

(** [find_affected_rows] with [y = 47], [h = 1] marks page 5 only. *)
Example find_affected_rows_last_row : find_affected_rows 47 1 = 32.
Proof. reflexivity. Qed.

(** * Further properties of the driver *)

(** ** Bit reversal *)

(** [reverse_bits] mirrors a byte: bit [k] of the result is bit [7 - k] of
    the argument, the result is a byte, and reversing twice gives the
    argument back. *)
Theorem reverse_bits_mirror (n : Z) :
  is_u8 n ->
  is_u8 (reverse_bits n)
  /\ reverse_bits (reverse_bits n) = n
  /\ forall k, 0 <= k < 8 ->
       Z.testbit (reverse_bits n) k = Z.testbit n (7 - k).
Proof.
  intros Hn.
  assert (Hall : forallb (fun n =>
             (0 <=? reverse_bits n) && (reverse_bits n <? 256)
             && (reverse_bits (reverse_bits n) =? n)
             && forallb (fun k =>
                  Bool.eqb (Z.testbit (reverse_bits n) k) (Z.testbit n (7 - k)))
                  (upto 0 8))
           (upto 0 256) = true) by (vm_compute; reflexivity).
  pose proof (forallb_upto _ _ _ Hall n Hn) as H. cbv beta in H.
  apply andb_true_iff in H as [H Hbits]. apply andb_true_iff in H as [H Hinv].
  apply andb_true_iff in H as [Hlo Hhi].
  apply Z.leb_le in Hlo. apply Z.ltb_lt in Hhi. apply Z.eqb_eq in Hinv.
  split; [split; assumption|]. split; [assumption|].
  intros k Hk. apply Bool.eqb_prop. apply (forallb_upto _ _ _ Hbits k Hk).
Qed.

Lemma reverse_bits_mirror_witness :
  is_u8 (reverse_bits 0x1D)
  /\ reverse_bits (reverse_bits 0x1D) = 0x1D
  /\ forall k, 0 <= k < 8 ->
       Z.testbit (reverse_bits 0x1D) k = Z.testbit 0x1D (7 - k).
Proof. apply (reverse_bits_mirror 0x1D). by_eval. Defined.

(** ** The page resolver: which pages are marked *)

(** For a placement that fits the display, [find_affected_rows] marks every
    page the glyph covers, pages [y / 8] to [(y + h - 1) / 8]; the only
    other page it can mark is the one right below, and it does so exactly
    when the glyph ends on a page boundary above the last page.  No page the
    glyph covers is ever missed. *)
Theorem find_affected_rows_pages (y h p : Z) :
  0 <= y < 48 -> 1 <= h -> y + h <= 48 -> 0 <= p < 8 ->
  Z.testbit (find_affected_rows y h) p
  = ((y / 8 <=? p) && (p <=? (y + h - 1) / 8))
    || ((p =? (y + h) / 8) && ((y + h) mod 8 =? 0) && (y + h <? 48)).
Proof.
  intros Hy Hh Hfit Hp.
  assert (Hall : forallb (fun y => forallb (fun h => forallb (fun p =>
             (48 <? y + h)
             || Bool.eqb (Z.testbit (find_affected_rows y h) p)
                  (((y / 8 <=? p) && (p <=? (y + h - 1) / 8))
                   || ((p =? (y + h) / 8) && ((y + h) mod 8 =? 0)
                       && (y + h <? 48))))
           (upto 0 8)) (upto 1 49)) (upto 0 48) = true)
    by (vm_compute; reflexivity).
  pose proof (forallb_upto _ _ _ Hall y Hy) as H1. cbv beta in H1.
  pose proof (forallb_upto _ _ _ H1 h ltac:(lia)) as H2. cbv beta in H2.
  pose proof (forallb_upto _ _ _ H2 p Hp) as H3. cbv beta in H3.
  apply orb_true_iff in H3 as [Hbad%Z.ltb_lt | Hok]; [lia|].
  now apply Bool.eqb_prop.
Qed.

Lemma find_affected_rows_pages_witness :
  Z.testbit (find_affected_rows 20 8) 3
  = ((20 / 8 <=? 3) && (3 <=? (20 + 8 - 1) / 8))
    || ((3 =? (20 + 8) / 8) && ((20 + 8) mod 8 =? 0) && (20 + 8 <? 48)).
Proof. apply (find_affected_rows_pages 20 8 3); by_eval. Defined.

(** ** The transport *)

(** [send] clocks a byte out most significant bit first: for [k = 0 .. 7]
    it puts bit [7 - k] on DIN and pulses CLK low then high, and does
    nothing else. *)
Theorem send_msb_first (d : Z) :
  is_u8 d -> send d = concat (bit_frame d <$> upto 0 8).
Proof.
  intros Hd.
  assert (Hall : forallb (fun d =>
             bool_decide (send d = concat (bit_frame d <$> upto 0 8)))
           (upto 0 256) = true) by (vm_compute; reflexivity).
  pose proof (forallb_upto _ _ _ Hall d Hd) as H. cbv beta in H.
  now apply bool_decide_eq_true in H.
Qed.

Lemma send_msb_first_witness :
  send 0xA5 = concat (bit_frame 0xA5 <$> upto 0 8).
Proof. apply (send_msb_first 0xA5). by_eval. Defined.

Lemma history_write (d mode : Z) (lcd : LcdDriver) :
  history (write d mode lcd) = history lcd ++ write_frame d mode.
Proof.
  unfold history, write. cbn [wire with_wire].
  now rewrite reverse_app, reverse_involutive.
Qed.

(** The flat order in which [refresh_screen] visits the buffer. *)
Lemma refresh_order :
  (upto 0 6 ≫= fun i => (fun j => i * LCD_WIDTH + j) <$> upto 0 LCD_WIDTH)
  = upto 0 504.
Proof. vm_compute. reflexivity. Qed.

Lemma stream_outcome (lcd : LcdDriver) :
  length (buffer lcd) = 504%nat ->
  exists lcd',
    foldM (fun k lcd => b ← load (buffer lcd) k; Some (write b LCD_DATA lcd))
          (upto 0 504) lcd = Some lcd'
    /\ buffer lcd' = buffer lcd
    /\ inverttext lcd' = inverttext lcd
    /\ _cursor_x lcd' = _cursor_x lcd
    /\ _cursor_y lcd' = _cursor_y lcd
    /\ history lcd'
       = history lcd ++ concat ((fun b => write_frame b LCD_DATA) <$> buffer lcd).
Proof.
  intros Hlen.
  destruct (foldM_invariant
    (fun n s =>
       buffer s = buffer lcd /\ inverttext s = inverttext lcd
       /\ _cursor_x s = _cursor_x lcd /\ _cursor_y s = _cursor_y lcd
       /\ history s
          = history lcd
            ++ concat ((fun b => write_frame b LCD_DATA) <$> take n (buffer lcd)))
    (fun k lcd => b ← load (buffer lcd) k; Some (write b LCD_DATA lcd))
    (upto 0 504) lcd) as (lcd' & Hrun & Hb & Hi & Hx & Hy & Hh).
  - repeat split; try reflexivity. cbn. now rewrite app_nil_r.
  - intros n a s Ha (Hb & Hi & Hx & Hy & Hh).
    apply lookup_upto in Ha as [-> Hn]. rewrite Z.add_0_l.
    rewrite load_of_nat, Hb.
    destruct (lookup_lt_is_Some_2 (buffer lcd) n ltac:(lia)) as [b Hbn].
    rewrite Hbn. cbn [mbind option_bind].
    eexists. split; [reflexivity|].
    repeat split; try assumption.
    rewrite history_write, Hh, (take_S_r _ _ _ Hbn), fmap_app, concat_app.
    cbn [fmap list_fmap concat]. now rewrite app_nil_r, app_assoc.
  - exists lcd'. split; [exact Hrun|]. repeat split; try assumption.
    rewrite Hh. rewrite length_upto. change (Z.to_nat (504 - 0)) with 504%nat.
    now rewrite take_ge by lia.
Qed.

(** [refresh_screen] on the 504-byte buffer always succeeds: it sends the
    two address commands [0x40] and [0x80], then every buffer byte as a
    data write, page by page and column by column, which is the order of
    the buffer itself.  The buffer and the invert flag are unchanged; the
    cursor is left at [(0x80, 0x40)], the command constants [setXY] was
    called with. *)
Theorem refresh_screen_streams_buffer (lcd : LcdDriver) :
  length (buffer lcd) = 504%nat ->
  exists lcd',
    refresh_screen lcd = Some lcd'
    /\ buffer lcd' = buffer lcd
    /\ inverttext lcd' = inverttext lcd
    /\ _cursor_x lcd' = 0x80 /\ _cursor_y lcd' = 0x40
    /\ history lcd'
       = history lcd ++ write_frame 0x40 LCD_COMMAND ++ write_frame 0x80 LCD_COMMAND
         ++ concat ((fun b => write_frame b LCD_DATA) <$> buffer lcd).
Proof.
  intros Hlen. unfold refresh_screen.
  rewrite (foldM_ext _ (fun i lcd =>
             foldM (fun k lcd => b ← load (buffer lcd) k; Some (write b LCD_DATA lcd))
                   ((fun j => i * LCD_WIDTH + j) <$> upto 0 LCD_WIDTH) lcd))
    by (intros i s _; now rewrite foldM_fmap).
  rewrite (foldM_bind (fun k lcd => b ← load (buffer lcd) k; Some (write b LCD_DATA lcd))
                      (fun i => (fun j => i * LCD_WIDTH + j) <$> upto 0 LCD_WIDTH)).
  rewrite refresh_order.
  destruct (stream_outcome (setXY LCD_SETXADDR LCD_SETYADDR lcd) Hlen)
    as (lcd' & Hrun & Hb & Hi & Hx & Hy & Hh).
  exists lcd'. split; [exact Hrun|].
  repeat split; try assumption.
  rewrite Hh. unfold setXY, history. cbn [wire write with_wire buffer].
  rewrite !reverse_app, !reverse_involutive, <- !app_assoc. reflexivity.
Qed.

Lemma refresh_screen_streams_buffer_witness :
  exists lcd',
    refresh_screen cleared = Some lcd'
    /\ buffer lcd' = buffer cleared
    /\ inverttext lcd' = inverttext cleared
    /\ _cursor_x lcd' = 0x80 /\ _cursor_y lcd' = 0x40
    /\ history lcd'
       = history cleared ++ write_frame 0x40 LCD_COMMAND ++ write_frame 0x80 LCD_COMMAND
         ++ concat ((fun b => write_frame b LCD_DATA) <$> buffer cleared).
Proof. apply (refresh_screen_streams_buffer cleared). reflexivity. Defined.

(** ** Initialisation *)

Lemma clear_outcome (lcd : LcdDriver) :
  length (buffer lcd) = 504%nat ->
  exists lcd',
    clear lcd = Some lcd'
    /\ buffer lcd' = replicate 504 0x00
    /\ history lcd' = history lcd ++ concat (replicate 504 (write_frame 0x00 LCD_DATA))
    /\ _cursor_x lcd' = _cursor_x lcd
    /\ _cursor_y lcd' = _cursor_y lcd
    /\ inverttext lcd' = inverttext lcd.
Proof.
  intros Hlen. unfold clear.
  destruct (foldM_invariant
    (fun n s =>
       buffer s = replicate n 0 ++ drop n (buffer lcd)
       /\ history s = history lcd ++ concat (replicate n (write_frame 0x00 LCD_DATA))
       /\ _cursor_x s = _cursor_x lcd /\ _cursor_y s = _cursor_y lcd
       /\ inverttext s = inverttext lcd)
    (fun i lcd =>
       let lcd := write 0x00 LCD_DATA lcd in
       b ← store (buffer lcd) i 0x00;
       Some (with_buffer lcd b))
    (upto 0 LCD_SIZE) lcd) as (lcd' & Hrun & Hb & Hw & Hx & Hy & Hi).
  - cbn [replicate concat app]. rewrite drop_0, app_nil_r. auto.
  - intros n a s Ha (Hb & Hw & Hx & Hy & Hi).
    apply lookup_upto in Ha as [-> Hn]. change LCD_SIZE with 504 in Hn.
    cbn zeta. rewrite Z.add_0_l.
    assert (Hlen' : length (buffer s) = 504%nat).
    { rewrite Hb, length_app, length_replicate, length_drop. lia. }
    change (buffer (write 0 LCD_DATA s)) with (buffer s).
    rewrite store_in_range by lia. cbn [mbind option_bind].
    eexists. split; [reflexivity|]. rewrite Nat2Z.id.
    split; [|split; [|repeat split; assumption]].
    + cbn [buffer with_buffer]. rewrite Hb. apply insert_next_zero. lia.
    + change (history (with_buffer (write 0 LCD_DATA s) (<[n:=0]> (buffer s))))
        with (history (write 0 LCD_DATA s)).
      rewrite history_write, Hw, replicate_S_end, concat_app.
      cbn [concat]. now rewrite app_nil_r, app_assoc.
  - exists lcd'. split; [exact Hrun|].
    rewrite length_upto in Hb, Hw.
    change (Z.to_nat (LCD_SIZE - 0)) with 504%nat in Hb, Hw.
    repeat split; try assumption.
    rewrite Hb. rewrite drop_ge by lia. apply app_nil_r.
Qed.

(** Whatever the driver held before, [init] on the 504-byte buffer
    succeeds and leaves the buffer all zero and the invert flag off; on the
    wire it produces the reset pulse, the six configuration commands in
    order and then the 504 zero data bytes of [clear].  The cursor fields
    are not reset. *)
Theorem init_resets_driver (lcd : LcdDriver) :
  length (buffer lcd) = 504%nat ->
  exists lcd',
    init lcd = Some lcd'
    /\ buffer lcd' = replicate 504 0x00
    /\ inverttext lcd' = false
    /\ _cursor_x lcd' = _cursor_x lcd /\ _cursor_y lcd' = _cursor_y lcd
    /\ history lcd'
       = history lcd ++ [(RST, false); (RST, true)]
         ++ concat ((fun c => write_frame c LCD_COMMAND)
                      <$> [0x21; 0xB8; 0x04; 0x12; 0x20; 0x0C])
         ++ concat (replicate 504 (write_frame 0x00 LCD_DATA)).
Proof.
  intros Hlen. unfold init.
  set (lcd6 := write LCD_DISPLAY_NORMAL LCD_COMMAND _).
  destruct (clear_outcome lcd6 Hlen) as (lcd' & Hrun & Hb & Hh & Hx & Hy & Hi).
  rewrite Hrun. cbn [mbind option_bind].
  eexists. split; [reflexivity|].
  repeat split; try assumption.
  change (history (invert false lcd')) with (history lcd').
  rewrite Hh. unfold lcd6. rewrite !history_write.
  unfold history, write_pin. cbn [wire with_wire].
  rewrite !reverse_cons. cbn [fmap list_fmap concat].
  rewrite <- !app_assoc. reflexivity.
Qed.

Lemma init_resets_driver_witness :
  exists lcd',
    init (invert true cleared) = Some lcd'
    /\ buffer lcd' = replicate 504 0x00
    /\ inverttext lcd' = false
    /\ _cursor_x lcd' = _cursor_x (invert true cleared)
    /\ _cursor_y lcd' = _cursor_y (invert true cleared)
    /\ history lcd'
       = history (invert true cleared) ++ [(RST, false); (RST, true)]
         ++ concat ((fun c => write_frame c LCD_COMMAND)
                      <$> [0x21; 0xB8; 0x04; 0x12; 0x20; 0x0C])
         ++ concat (replicate 504 (write_frame 0x00 LCD_DATA)).
Proof. apply (init_resets_driver (invert true cleared)). reflexivity. Defined.

(** ** Pixels *)

Lemma testbit_u8 (z k : Z) : 0 <= k < 8 -> Z.testbit (u8 z) k = Z.testbit z k.
Proof. intros Hk. unfold u8. change 256 with (2 ^ 8). apply Z.mod_pow2_bits_low. lia. Qed.

Lemma testbit_one_shl (b k : Z) :
  0 <= b -> Z.testbit (Z.shiftl 1 b) k = (k =? b).
Proof.
  intros Hb. rewrite Z.shiftl_1_l, Z.pow2_bits_eqb by lia. apply Z.eqb_sym.
Qed.

Lemma row_split (y : Z) :
  0 <= y -> y = 8 * (y ÷ 8) + Z.rem y 8 /\ 0 <= Z.rem y 8 < 8 /\ 0 <= y ÷ 8.
Proof.
  intros Hy. split; [apply Z.quot_rem'|]. split.
  - apply Z.rem_bound_pos; lia.
  - apply Z.quot_pos; lia.
Qed.

(** The read-modify-write of [set_pixel] on the byte that holds the pixel. *)
Lemma set_pixel_byte (value : bool) (cell b k : Z) :
  0 <= b < 8 -> 0 <= k < 8 ->
  Z.testbit (if value then u8 (Z.lor cell (Z.shiftl 1 b))
             else u8 (Z.land cell (Z.lnot (Z.shiftl 1 b)))) k
  = if k =? b then value else Z.testbit cell k.
Proof.
  intros Hb Hk. destruct value.
  - rewrite testbit_u8, Z.lor_spec, testbit_one_shl by lia.
    destruct (k =? b); [apply orb_true_r|apply orb_false_r].
  - rewrite testbit_u8, Z.land_spec, Z.lnot_spec, testbit_one_shl by lia.
    destruct (k =? b); [apply andb_false_r|apply andb_true_r].
Qed.

Lemma set_pixel_outcome (x y : Z) (value : bool) (lcd : LcdDriver) :
  0 <= x < 84 -> 0 <= y < 48 -> length (buffer lcd) = 504%nat ->
  exists lcd',
    set_pixel x y value lcd = Some lcd'
    /\ length (buffer lcd') = 504%nat
    /\ wire lcd' = wire lcd /\ inverttext lcd' = inverttext lcd
    /\ _cursor_x lcd' = _cursor_x lcd /\ _cursor_y lcd' = _cursor_y lcd
    /\ forall x' y', 0 <= x' < 84 -> 0 <= y' < 48 ->
         pixel (buffer lcd') x' y'
         = if (x' =? x) && (y' =? y) then Some value else pixel (buffer lcd) x' y'.
Proof.
  intros Hx Hy Hlen.
  destruct (row_split y ltac:(lia)) as (Hsplit & Hrem & Hquot).
  assert (Hq : y ÷ 8 < 6) by lia.
  set (i := x + y ÷ 8 * LCD_WIDTH).
  assert (Hi : 0 <= i < 504) by (unfold i, LCD_WIDTH; lia).
  destruct (load_in_range (buffer lcd) i ltac:(lia)) as [cell Hcell].
  set (new := if value then u8 (Z.lor cell (Z.shiftl 1 (Z.rem y 8)))
              else u8 (Z.land cell (Z.lnot (Z.shiftl 1 (Z.rem y 8))))).
  pose proof (store_in_range (buffer lcd) i new ltac:(lia)) as Hst.
  exists (with_buffer lcd (<[Z.to_nat i := new]> (buffer lcd))).
  split; [|split; [|repeat split]].
  - unfold set_pixel. fold i. rewrite Hcell. cbn [mbind option_bind].
    destruct value; fold new; rewrite Hst; reflexivity.
  - cbn [buffer with_buffer]. now rewrite length_insert.
  - intros x' y' Hx' Hy'. cbn [buffer with_buffer].
    destruct (row_split y' ltac:(lia)) as (Hsplit' & Hrem' & Hquot').
    unfold pixel.
    destruct (Z.eq_dec (x' + y' ÷ 8 * LCD_WIDTH) i) as [Heq|Hne].
    + rewrite Heq, (load_store_eq _ _ _ _ Hst), Hcell. cbn [mbind option_bind].
      assert (x' = x /\ y' ÷ 8 = y ÷ 8) as [-> Hpage]
        by (unfold i, LCD_WIDTH in Heq; lia).
      rewrite Z.eqb_refl. cbn [andb]. unfold new.
      rewrite set_pixel_byte by lia.
      destruct (Z.eqb_spec (Z.rem y' 8) (Z.rem y 8)) as [Hr|Hr],
               (Z.eqb_spec y' y) as [Hy2|Hy2]; try reflexivity; lia.
    + rewrite (load_store_ne _ _ _ _ _ Hst Hne).
      destruct (Z.eqb_spec x' x) as [->|]; [|reflexivity].
      destruct (Z.eqb_spec y' y) as [->|]; [|reflexivity].
      contradiction.
Qed.

(** [set_pixel] on a point of the display changes that pixel to [value] and
    no other pixel; it sends nothing to the device. *)
Theorem set_pixel_changes_one_pixel (x y : Z) (value : bool) (lcd : LcdDriver) :
  0 <= x < 84 -> 0 <= y < 48 -> length (buffer lcd) = 504%nat ->
  exists lcd',
    set_pixel x y value lcd = Some lcd'
    /\ history lcd' = history lcd
    /\ forall x' y', 0 <= x' < 84 -> 0 <= y' < 48 ->
         pixel (buffer lcd') x' y'
         = if (x' =? x) && (y' =? y) then Some value else pixel (buffer lcd) x' y'.
Proof.
  intros Hx Hy Hlen.
  destruct (set_pixel_outcome x y value lcd Hx Hy Hlen)
    as (lcd' & Hrun & _ & Hw & _ & _ & _ & Hpix).
  exists lcd'. split; [exact Hrun|]. split; [|exact Hpix].
  unfold history. now rewrite Hw.
Qed.

Lemma set_pixel_changes_one_pixel_witness :
  exists lcd',
    set_pixel 83 47 true cleared = Some lcd'
    /\ history lcd' = history cleared
    /\ forall x' y', 0 <= x' < 84 -> 0 <= y' < 48 ->
         pixel (buffer lcd') x' y'
         = if (x' =? 83) && (y' =? 47) then Some true else pixel (buffer cleared) x' y'.
Proof. apply (set_pixel_changes_one_pixel 83 47 true cleared); by_eval. Defined.

(** A run of [set_pixel] calls over a list of points of the display. *)
Lemma foldM_set_pixel (value : bool) (pts : list (Z * Z)) :
  forall lcd : LcdDriver,
  length (buffer lcd) = 504%nat ->
  (forall p, p ∈ pts -> 0 <= fst p < 84 /\ 0 <= snd p < 48) ->
  exists lcd',
    foldM (fun p lcd => set_pixel (fst p) (snd p) value lcd) pts lcd = Some lcd'
    /\ length (buffer lcd') = 504%nat
    /\ wire lcd' = wire lcd /\ inverttext lcd' = inverttext lcd
    /\ _cursor_x lcd' = _cursor_x lcd /\ _cursor_y lcd' = _cursor_y lcd
    /\ forall x' y', 0 <= x' < 84 -> 0 <= y' < 48 ->
         pixel (buffer lcd') x' y'
         = if bool_decide ((x', y') ∈ pts) then Some value
           else pixel (buffer lcd) x' y'.
Proof.
  induction pts as [|[px py] pts IH]; intros lcd Hlen Hin.
  - exists lcd. split; [reflexivity|]. repeat split; assumption.
  - destruct (Hin (px, py) (list_elem_of_here _ _)) as [Hpx Hpy].
    cbn [fst snd] in Hpx, Hpy.
    destruct (set_pixel_outcome px py value lcd Hpx Hpy Hlen)
      as (lcd1 & Hrun1 & Hlen1 & Hw1 & Hi1 & Hx1 & Hy1 & Hpix1).
    destruct (IH lcd1 Hlen1) as (lcd' & Hrun & Hlen' & Hw & Hi & Hx & Hy & Hpix).
    { intros p Hp. apply Hin. now apply list_elem_of_further. }
    exists lcd'. split; [|split; [|split; [|split; [|split; [|split]]]]];
      try congruence.
    + cbn [foldM fst snd]. rewrite Hrun1. exact Hrun.
    + intros x' y' Hx' Hy'. rewrite (Hpix x' y' Hx' Hy').
      destruct (bool_decide_reflect ((x', y') ∈ pts)) as [Hm|Hm].
      * rewrite bool_decide_eq_true_2; [reflexivity|].
        now apply list_elem_of_further.
      * rewrite (Hpix1 x' y' Hx' Hy').
        destruct (Z.eqb_spec x' px) as [->|Hnx].
        -- destruct (Z.eqb_spec y' py) as [->|Hny]; cbn [andb].
           ++ rewrite bool_decide_eq_true_2; [reflexivity|apply list_elem_of_here].
           ++ rewrite bool_decide_eq_false_2; [reflexivity|].
              intros [Heq|Hm']%elem_of_cons; [congruence|contradiction].
        -- cbn [andb]. rewrite bool_decide_eq_false_2; [reflexivity|].
           intros [Heq|Hm']%elem_of_cons; [congruence|contradiction].
Qed.

(** ** Areas and lines *)

Lemma clear_area_points (x y width height : Z) (lcd : LcdDriver) :
  clear_area x y width height lcd
  = foldM (fun p lcd => set_pixel (fst p) (snd p) false lcd)
          (upto 0 height ≫= fun i =>
             (fun j => (u8 (x + j), u8 (y + i))) <$> upto 0 width)
          lcd.
Proof.
  unfold clear_area. rewrite <- foldM_bind. apply foldM_ext. intros i s _.
  now rewrite foldM_fmap.
Qed.

(** [clear_area] on a rectangle inside the display switches off every
    pixel of the rectangle and leaves every other pixel as it was; nothing
    is sent to the device.  An empty rectangle changes nothing. *)
Theorem clear_area_clears_rectangle (x y width height : Z) (lcd : LcdDriver) :
  0 <= x -> 0 <= y -> x + width <= 84 -> y + height <= 48 ->
  length (buffer lcd) = 504%nat ->
  exists lcd',
    clear_area x y width height lcd = Some lcd'
    /\ history lcd' = history lcd
    /\ forall x' y', 0 <= x' < 84 -> 0 <= y' < 48 ->
         pixel (buffer lcd') x' y'
         = if (x <=? x') && (x' <? x + width) && (y <=? y') && (y' <? y + height)
           then Some false
           else pixel (buffer lcd) x' y'.
Proof.
  intros Hx Hy Hw Hh Hlen. rewrite clear_area_points.
  set (pts := upto 0 height ≫= _).
  assert (Hpts : forall x' y', (x', y') ∈ pts
                 <-> (x <= x' < x + width /\ y <= y' < y + height)).
  { intros x' y'. unfold pts. rewrite list_elem_of_bind. split.
    - intros (i & Hp & Hi). apply list_elem_of_fmap in Hp as (j & Heq & Hj).
      apply elem_of_upto in Hi, Hj. injection Heq as -> ->.
      rewrite !u8_id by (unfold is_u8; lia). lia.
    - intros [Hx' Hy']. exists (y' - y). split.
      + apply list_elem_of_fmap. exists (x' - x). split.
        * rewrite !u8_id by (unfold is_u8; lia). f_equal; lia.
        * apply elem_of_upto. lia.
      + apply elem_of_upto. lia. }
  destruct (foldM_set_pixel false pts lcd Hlen)
    as (lcd' & Hrun & _ & Hwire & _ & _ & _ & Hpix).
  { intros [px py] Hp. apply Hpts in Hp. cbn [fst snd]. lia. }
  exists lcd'. split; [exact Hrun|]. split.
  { unfold history. now rewrite Hwire. }
  intros x' y' Hx' Hy'. rewrite (Hpix x' y' Hx' Hy').
  destruct (bool_decide_reflect ((x', y') ∈ pts)) as [Hm|Hm].
  - apply Hpts in Hm.
    destruct (Z.leb_spec x x'), (Z.ltb_spec x' (x + width)),
             (Z.leb_spec y y'), (Z.ltb_spec y' (y + height)); try lia. reflexivity.
  - destruct (Z.leb_spec x x'), (Z.ltb_spec x' (x + width)),
             (Z.leb_spec y y'), (Z.ltb_spec y' (y + height)); try reflexivity.
    exfalso. apply Hm, Hpts. lia.
Qed.

Lemma clear_area_clears_rectangle_witness :
  exists lcd',
    clear_area 10 4 5 8 all_on = Some lcd'
    /\ history lcd' = history all_on
    /\ forall x' y', 0 <= x' < 84 -> 0 <= y' < 48 ->
         pixel (buffer lcd') x' y'
         = if (10 <=? x') && (x' <? 10 + 5) && (4 <=? y') && (y' <? 4 + 8)
           then Some false
           else pixel (buffer all_on) x' y'.
Proof. apply (clear_area_clears_rectangle 10 4 5 8 all_on); by_eval. Defined.

(** On the display with every pixel on, the same call leaves the pixel at
    (10, 4) off and the pixel at (9, 4), left of the area, on. *)
Example clear_area_on_lit_display :
  (lcd' ← clear_area 10 4 5 8 all_on; pixel (buffer lcd') 10 4) = Some false
  /\ (lcd' ← clear_area 10 4 5 8 all_on; pixel (buffer lcd') 14 11) = Some false
  /\ (lcd' ← clear_area 10 4 5 8 all_on; pixel (buffer lcd') 9 4) = Some true
  /\ (lcd' ← clear_area 10 4 5 8 all_on; pixel (buffer lcd') 10 12) = Some true
  /\ pixel (buffer all_on) 10 4 = Some true.
Proof. vm_compute. repeat split. Qed.

(** [draw_V_line(x, y, l)] switches on the pixels of column [x] from row
    [y] to row [y + l], both included: [l + 1] pixels, one more than the
    length asked for.  Every other pixel is unchanged, nothing is sent to
    the device, and a column outside the display draws nothing.  The line
    must end on the display ([y + l < 48]). *)
Theorem draw_V_line_draws_one_more (x y l : Z) (lcd : LcdDriver) :
  0 <= y -> y + l < 48 -> length (buffer lcd) = 504%nat ->
  exists lcd',
    draw_V_line x y l lcd = Some lcd'
    /\ history lcd' = history lcd
    /\ forall x' y', 0 <= x' < 84 -> 0 <= y' < 48 ->
         pixel (buffer lcd') x' y'
         = if (x' =? x) && (y <=? y') && (y' <=? y + l)
           then Some true
           else pixel (buffer lcd) x' y'.
Proof.
  intros Hy Hl Hlen. unfold draw_V_line.
  destruct ((x >=? 0) && (x <? 84) && (y >=? 0) && (y <? 48)) eqn:Hguard.
  - repeat (apply andb_true_iff in Hguard as [Hguard ?]).
    assert (Hx : 0 <= x < 84) by lia. assert (Hy' : y < 48) by lia.
    rewrite <- (foldM_fmap (fun cy => (u8 x, u8 (y + cy)))
                           (fun p lcd => set_pixel (fst p) (snd p) true lcd)).
    set (pts := _ <$> upto 0 (l + 1)).
    assert (Hpts : forall x' y', (x', y') ∈ pts <-> (x' = x /\ y <= y' <= y + l)).
    { intros x' y'. unfold pts. rewrite list_elem_of_fmap. split.
      - intros (cy & Heq & Hcy). apply elem_of_upto in Hcy.
        injection Heq as -> ->. rewrite !u8_id by (unfold is_u8; lia). lia.
      - intros [-> Hy'']. exists (y' - y). split.
        + rewrite !u8_id by (unfold is_u8; lia). f_equal; lia.
        + apply elem_of_upto. lia. }
    destruct (foldM_set_pixel true pts lcd Hlen)
      as (lcd' & Hrun & _ & Hwire & _ & _ & _ & Hpix).
    { intros [px py] Hp. apply Hpts in Hp. cbn [fst snd]. lia. }
    exists lcd'. split; [exact Hrun|]. split.
    { unfold history. now rewrite Hwire. }
    intros x' y' Hx' Hy''. rewrite (Hpix x' y' Hx' Hy'').
    destruct (bool_decide_reflect ((x', y') ∈ pts)) as [Hm|Hm].
    + apply Hpts in Hm.
      destruct (Z.eqb_spec x' x), (Z.leb_spec y y'), (Z.leb_spec y' (y + l));
        try lia. reflexivity.
    + destruct (Z.eqb_spec x' x), (Z.leb_spec y y'), (Z.leb_spec y' (y + l));
        try reflexivity.
      exfalso. apply Hm, Hpts. lia.
  - exists lcd. split; [reflexivity|]. split; [reflexivity|].
    intros x' y' Hx' Hy'.
    destruct (Z.eqb_spec x' x), (Z.leb_spec y y'), (Z.leb_spec y' (y + l));
      try reflexivity.
    exfalso. subst x'.
    destruct (Z.geb_spec x 0), (Z.ltb_spec x 84), (Z.geb_spec y 0), (Z.ltb_spec y 48);
      cbn in Hguard; try discriminate; lia.
Qed.

Lemma draw_V_line_draws_one_more_witness :
  exists lcd',
    draw_V_line 3 10 5 cleared = Some lcd'
    /\ history lcd' = history cleared
    /\ forall x' y', 0 <= x' < 84 -> 0 <= y' < 48 ->
         pixel (buffer lcd') x' y'
         = if (x' =? 3) && (10 <=? y') && (y' <=? 10 + 5)
           then Some true
           else pixel (buffer cleared) x' y'.
Proof. apply (draw_V_line_draws_one_more 3 10 5 cleared); by_eval. Defined.

Lemma foldM_fault_after {A S : Type} (body : A -> S -> option S)
    (l1 : list A) (a : A) (l2 : list A) (s s1 : S) :
  foldM body l1 s = Some s1 -> body a s1 = None ->
  foldM body (l1 ++ a :: l2) s = None.
Proof.
  intros H1 Ha. rewrite foldM_app, H1. cbn [mbind option_bind foldM].
  now rewrite Ha.
Qed.

(** [draw_V_line] does not clip at the bottom edge: a line that starts on
    the display and would pass row 47 makes [set_pixel] index the buffer
    beyond its 504 bytes. *)
Theorem draw_V_line_past_bottom_overruns (x y l : Z) (lcd : LcdDriver) :
  0 <= x < 84 -> 0 <= y < 48 -> 48 <= y + l -> y + l < 256 ->
  length (buffer lcd) = 504%nat ->
  draw_V_line x y l lcd = None.
Proof.
  intros Hx Hy Hover Hbyte Hlen. unfold draw_V_line.
  destruct (Z.geb_spec x 0), (Z.ltb_spec x 84), (Z.geb_spec y 0), (Z.ltb_spec y 48);
    try lia. cbn [andb].
  unfold upto. replace (l + 1 - 0) with ((48 - y) + (l + 1 - (48 - y))) by lia.
  rewrite seqZ_app by lia.
  rewrite (seqZ_cons (0 + (48 - y))) by lia.
  destruct (foldM_set_pixel true
              ((fun cy => (u8 x, u8 (y + cy))) <$> seqZ 0 (48 - y)) lcd Hlen)
    as (lcd1 & Hrun & Hlen1 & _).
  { intros [px py] (cy & Heq & Hcy)%list_elem_of_fmap.
    apply elem_of_seqZ in Hcy. injection Heq as -> ->.
    rewrite !u8_id by (unfold is_u8; lia). cbn [fst snd]. lia. }
  rewrite foldM_fmap in Hrun. cbn [fst snd] in Hrun.
  apply (foldM_fault_after _ _ _ _ _ lcd1 Hrun).
  replace (y + (0 + (48 - y))) with 48 by lia.
  unfold set_pixel. rewrite (u8_id x), (u8_id 48) by (unfold is_u8; lia).
  change (48 ÷ 8 * LCD_WIDTH) with 504.
  destruct (load (buffer lcd1) (x + 504)) as [c|] eqn:E; [|reflexivity].
  apply load_Some_lt in E. lia.
Qed.

Lemma draw_V_line_past_bottom_overruns_witness :
  draw_V_line 3 40 10 cleared = None.
Proof. apply (draw_V_line_past_bottom_overruns 3 40 10 cleared); by_eval. Defined.

Lemma draw_H_line_points (x y l : Z) (lcd : LcdDriver) :
  0 <= x < 84 -> 0 <= y < 48 ->
  draw_H_line x y l lcd
  = foldM (fun cx lcd => set_pixel (x + cx) y true lcd) (upto 0 l) lcd.
Proof.
  intros Hx Hy. unfold draw_H_line.
  destruct (Z.geb_spec x 0), (Z.ltb_spec x LCD_WIDTH), (Z.geb_spec y 0),
           (Z.ltb_spec y LCD_HEIGHT); unfold LCD_WIDTH, LCD_HEIGHT in *; try lia.
  cbn [andb]. apply foldM_ext. intros cx s _. unfold set_pixel.
  replace (y ÷ 8 * 84 + x + cx) with (x + cx + y ÷ 8 * LCD_WIDTH)
    by (unfold LCD_WIDTH; lia).
  reflexivity.
Qed.

(** A byte index one page width further is the same column one page lower. *)
Lemma set_pixel_next_page (x y : Z) (value : bool) (lcd : LcdDriver) :
  0 <= y ->
  set_pixel (x + 84) y value lcd = set_pixel x (y + 8) value lcd.
Proof.
  intros Hy. unfold set_pixel.
  assert (Hq : (y + 8) ÷ 8 = y ÷ 8 + 1).
  { rewrite !Z.quot_div_nonneg by lia.
    replace (y + 8) with (y + 1 * 8) by lia. now rewrite Z.div_add by lia. }
  assert (Hr : Z.rem (y + 8) 8 = Z.rem y 8).
  { rewrite !Z.rem_mod_nonneg by lia.
    replace (y + 8) with (y + 1 * 8) by lia. now rewrite Z.mod_add by lia. }
  rewrite Hq, Hr.
  replace (x + 84 + y ÷ 8 * LCD_WIDTH) with (x + (y ÷ 8 + 1) * LCD_WIDTH)
    by (unfold LCD_WIDTH; lia).
  reflexivity.
Qed.

(** [draw_H_line(x, y, l)] from a point of the display switches on [l]
    pixels, but it does not clip at the right edge: the pixels of row [y]
    from column [x] to column 83 at most, and what is left of the [l]
    pixels continues from column 0 of row [y + 8], the same bit of the next
    page.  Every other pixel is unchanged and nothing is sent to the
    device.  Stated for lines whose overflow stays on the display
    ([y < 40], [x + l <= 168]); within [x + l <= 84] only row [y] is
    drawn. *)
Theorem draw_H_line_runs_into_next_page (x y l : Z) (lcd : LcdDriver) :
  0 <= x < 84 -> 0 <= y < 40 -> x + l <= 168 ->
  length (buffer lcd) = 504%nat ->
  exists lcd',
    draw_H_line x y l lcd = Some lcd'
    /\ history lcd' = history lcd
    /\ forall x' y', 0 <= x' < 84 -> 0 <= y' < 48 ->
         pixel (buffer lcd') x' y'
         = if ((y' =? y) && (x <=? x') && (x' <? x + l))
              || ((y' =? y + 8) && (x' <? x + l - 84))
           then Some true
           else pixel (buffer lcd) x' y'.
Proof.
  intros Hx Hy Hl Hlen. rewrite draw_H_line_points by lia.
  set (wrap := fun cx => if x + cx <? 84 then (x + cx, y) else (x + cx - 84, y + 8)).
  rewrite (foldM_ext _ (fun cx lcd => set_pixel (fst (wrap cx)) (snd (wrap cx)) true lcd)).
  2:{ intros cx s _. unfold wrap. destruct (Z.ltb_spec (x + cx) 84); cbn [fst snd].
      - reflexivity.
      - rewrite <- set_pixel_next_page by lia. f_equal. lia. }
  rewrite <- (foldM_fmap wrap (fun p lcd => set_pixel (fst p) (snd p) true lcd)).
  set (pts := wrap <$> upto 0 l).
  assert (Hpts : forall x' y', 0 <= x' < 84 ->
            ((x', y') ∈ pts
             <-> ((y' = y /\ x <= x' < x + l) \/ (y' = y + 8 /\ x' < x + l - 84)))).
  { intros x' y' Hx'. unfold pts. rewrite list_elem_of_fmap. split.
    - intros (cx & Heq & Hcx). apply elem_of_upto in Hcx. unfold wrap in Heq.
      destruct (Z.ltb_spec (x + cx) 84); injection Heq as -> ->; lia.
    - intros [[-> Hr]|[-> Hr]].
      + exists (x' - x). split; [|apply elem_of_upto; lia].
        unfold wrap. destruct (Z.ltb_spec (x + (x' - x)) 84); [f_equal; lia|lia].
      + exists (x' + 84 - x). split; [|apply elem_of_upto; lia].
        unfold wrap. destruct (Z.ltb_spec (x + (x' + 84 - x)) 84); [lia|f_equal; lia]. }
  destruct (foldM_set_pixel true pts lcd Hlen)
    as (lcd' & Hrun & _ & Hwire & _ & _ & _ & Hpix).
  { intros [px py] (cx & Heq & Hcx)%list_elem_of_fmap.
    apply elem_of_upto in Hcx. unfold wrap in Heq.
    destruct (Z.ltb_spec (x + cx) 84); injection Heq as -> ->; cbn [fst snd]; lia. }
  exists lcd'. split; [exact Hrun|]. split.
  { unfold history. now rewrite Hwire. }
  intros x' y' Hx' Hy'. rewrite (Hpix x' y' Hx' Hy').
  destruct (bool_decide_reflect ((x', y') ∈ pts)) as [Hm|Hm].
  - apply (Hpts x' y' Hx') in Hm.
    destruct (Z.eqb_spec y' y), (Z.leb_spec x x'), (Z.ltb_spec x' (x + l)),
             (Z.eqb_spec y' (y + 8)), (Z.ltb_spec x' (x + l - 84));
      cbn [andb orb]; try reflexivity; lia.
  - destruct (Z.eqb_spec y' y), (Z.leb_spec x x'), (Z.ltb_spec x' (x + l)),
             (Z.eqb_spec y' (y + 8)), (Z.ltb_spec x' (x + l - 84));
      cbn [andb orb]; try reflexivity; exfalso; apply Hm, (Hpts x' y' Hx'); lia.
Qed.

Lemma draw_H_line_runs_into_next_page_witness :
  exists lcd',
    draw_H_line 80 3 10 cleared = Some lcd'
    /\ history lcd' = history cleared
    /\ forall x' y', 0 <= x' < 84 -> 0 <= y' < 48 ->
         pixel (buffer lcd') x' y'
         = if ((y' =? 3) && (80 <=? x') && (x' <? 80 + 10))
              || ((y' =? 3 + 8) && (x' <? 80 + 10 - 84))
           then Some true
           else pixel (buffer cleared) x' y'.
Proof. apply (draw_H_line_runs_into_next_page 80 3 10 cleared); by_eval. Defined.

(** [draw_H_line(x, y, l)] with [0 <= x] and [x + l <= 84] switches on the
    pixels of row [y] in columns [x] to [x + l - 1] and leaves every other
    pixel unchanged; a row outside the display draws nothing, and nothing
    is sent to the device. *)
Theorem draw_H_line_on_display (x y l : Z) (lcd : LcdDriver) :
  0 <= x -> x + l <= 84 -> length (buffer lcd) = 504%nat ->
  exists lcd',
    draw_H_line x y l lcd = Some lcd'
    /\ history lcd' = history lcd
    /\ forall x' y', 0 <= x' < 84 -> 0 <= y' < 48 ->
         pixel (buffer lcd') x' y'
         = if (y' =? y) && (x <=? x') && (x' <? x + l)
           then Some true
           else pixel (buffer lcd) x' y'.
Proof.
  intros Hx Hl Hlen.
  destruct (decide (0 <= x < 84 /\ 0 <= y < 48)) as [[Hx' Hy]|Hout].
  - rewrite draw_H_line_points by lia.
    rewrite <- (foldM_fmap (fun cx => (x + cx, y))
                           (fun p lcd => set_pixel (fst p) (snd p) true lcd)).
    set (pts := _ <$> upto 0 l).
    assert (Hpts : forall x' y', (x', y') ∈ pts <-> (y' = y /\ x <= x' < x + l)).
    { intros x' y'. unfold pts. rewrite list_elem_of_fmap. split.
      - intros (cx & Heq & Hcx). apply elem_of_upto in Hcx.
        injection Heq as -> ->. lia.
      - intros [-> Hr]. exists (x' - x). split; [f_equal; lia|].
        apply elem_of_upto. lia. }
    destruct (foldM_set_pixel true pts lcd Hlen)
      as (lcd' & Hrun & _ & Hwire & _ & _ & _ & Hpix).
    { intros [px py] Hp. apply Hpts in Hp. cbn [fst snd]. lia. }
    exists lcd'. split; [exact Hrun|]. split.
    { unfold history. now rewrite Hwire. }
    intros x' y' Hx'' Hy'. rewrite (Hpix x' y' Hx'' Hy').
    destruct (bool_decide_reflect ((x', y') ∈ pts)) as [Hm|Hm].
    + apply Hpts in Hm.
      destruct (Z.eqb_spec y' y), (Z.leb_spec x x'), (Z.ltb_spec x' (x + l));
        try lia. reflexivity.
    + destruct (Z.eqb_spec y' y), (Z.leb_spec x x'), (Z.ltb_spec x' (x + l));
        try reflexivity.
      exfalso. apply Hm, Hpts. lia.
  - exists lcd. split; [|split; [reflexivity|]].
    + unfold draw_H_line, LCD_WIDTH, LCD_HEIGHT.
      destruct (Z.geb_spec x 0), (Z.ltb_spec x 84), (Z.geb_spec y 0),
               (Z.ltb_spec y 48); cbn [andb]; try reflexivity.
      exfalso. apply Hout. lia.
    + intros x' y' Hx' Hy'.
      destruct (Z.eqb_spec y' y), (Z.leb_spec x x'), (Z.ltb_spec x' (x + l));
        try reflexivity.
      exfalso. apply Hout. lia.
Qed.

Lemma draw_H_line_on_display_witness :
  exists lcd',
    draw_H_line 2 45 20 cleared = Some lcd'
    /\ history lcd' = history cleared
    /\ forall x' y', 0 <= x' < 84 -> 0 <= y' < 48 ->
         pixel (buffer lcd') x' y'
         = if (y' =? 45) && (2 <=? x') && (x' <? 2 + 20)
           then Some true
           else pixel (buffer cleared) x' y'.
Proof. apply (draw_H_line_on_display 2 45 20 cleared); by_eval. Defined.

(** ** The compositor, cell by cell *)

(** The column loop on one page: the cells [base .. base + cw - 1] are
    merged with row [n] of [new_data], the others are untouched. *)
Lemma merge_row (inv cm : bool) (nd : list Z) (cw base n : Z) (b : list Z) :
  0 <= cw -> 0 <= base -> base + cw <= Z.of_nat (length b) ->
  0 <= n -> (n + 1) * cw <= Z.of_nat (length nd) ->
  exists b',
    foldM (fun j buffer =>
             d ← load nd (j + n * cw);
             cell ← load buffer (base + j);
             store buffer (base + j) (merge_cell inv cm cell d))
          (upto 0 cw) b = Some b'
    /\ length b' = length b
    /\ forall k, load b' k
         = if (base <=? k) && (k <? base + cw)
           then Some (merge_cell inv cm (rd b k) (rd nd (k - base + n * cw)))
           else load b k.
Proof.
  intros Hcw Hbase Hfit Hn Hnd.
  destruct (foldM_invariant
    (fun t bt =>
       length bt = length b
       /\ forall k, load bt k
            = if (base <=? k) && (k <? base + Z.of_nat t)
              then Some (merge_cell inv cm (rd b k) (rd nd (k - base + n * cw)))
              else load b k)
    (fun j buffer =>
       d ← load nd (j + n * cw);
       cell ← load buffer (base + j);
       store buffer (base + j) (merge_cell inv cm cell d))
    (upto 0 cw) b) as (b' & Hrun & Hlen & Hcells).
  - split; [reflexivity|]. intros k.
    destruct (Z.leb_spec base k), (Z.ltb_spec k (base + Z.of_nat 0));
      try reflexivity; lia.
  - intros t a bt Ha (Hlen & Hcells).
    apply lookup_upto in Ha as [-> Ht]. rewrite Z.add_0_l in *.
    rewrite (load_rd nd (Z.of_nat t + n * cw)) by nia.
    cbn [mbind option_bind].
    assert (Hold : load bt (base + Z.of_nat t) = Some (rd b (base + Z.of_nat t))).
    { rewrite Hcells.
      destruct (Z.leb_spec base (base + Z.of_nat t)),
               (Z.ltb_spec (base + Z.of_nat t) (base + Z.of_nat t)); try lia.
      apply load_rd. lia. }
    rewrite Hold. cbn [mbind option_bind].
    pose proof (store_in_range bt (base + Z.of_nat t)
                  (merge_cell inv cm (rd b (base + Z.of_nat t))
                              (rd nd (Z.of_nat t + n * cw))) ltac:(lia)) as Hst.
    rewrite Hst. eexists. split; [reflexivity|]. split.
    + now rewrite length_insert.
    + intros k. destruct (Z.eq_dec k (base + Z.of_nat t)) as [->|Hne].
      * rewrite (load_store_eq _ _ _ _ Hst).
        destruct (Z.leb_spec base (base + Z.of_nat t)),
                 (Z.ltb_spec (base + Z.of_nat t) (base + Z.of_nat (S t))); try lia.
        cbn [andb]. do 3 f_equal. lia.
      * rewrite (load_store_ne _ _ _ _ _ Hst Hne), Hcells.
        destruct (Z.leb_spec base k), (Z.ltb_spec k (base + Z.of_nat t)),
                 (Z.ltb_spec k (base + Z.of_nat (S t))); try reflexivity; lia.
  - exists b'. split; [exact Hrun|]. split; [exact Hlen|].
    intros k. rewrite Hcells, length_upto.
    replace (Z.of_nat (Z.to_nat (cw - 0))) with cw by lia. reflexivity.
Qed.

(** The row scan, started on the low [q] bits of a mask of the six pages:
    it finds the highest marked page below [q] and leaves the bits below
    that page. *)
Lemma scan_row_prefix (m q : Z) :
  0 <= m < 64 -> 0 <= q <= 8 ->
  0 <= count_bits (m mod 2 ^ q)
  /\ (count_bits (m mod 2 ^ q) = 0 ->
      forall p, 0 <= p < q -> Z.testbit m p = false)
  /\ (0 < count_bits (m mod 2 ^ q) ->
      let '(p, r') := scan_row (downto 7 (-1)) (m mod 2 ^ q) in
      0 <= p < q /\ p < 6 /\ r' = m mod 2 ^ p /\ Z.testbit m p = true
      /\ count_bits r' = count_bits (m mod 2 ^ q) - 1
      /\ forall p', p < p' < q -> Z.testbit m p' = false).
Proof.
  intros Hm Hq.
  assert (Hall : forallb (fun m => forallb (fun q =>
             let r := m mod 2 ^ q in
             (0 <=? count_bits r)
             && (negb (count_bits r =? 0)
                 || forallb (fun p => (q <=? p) || negb (Z.testbit m p)) (upto 0 8))
             && (negb (0 <? count_bits r)
                 || let '(p, r') := scan_row (downto 7 (-1)) r in
                    (0 <=? p) && (p <? q) && (p <? 6) && (r' =? m mod 2 ^ p)
                    && Z.testbit m p && (count_bits r' =? count_bits r - 1)
                    && forallb (fun p' => (p' <=? p) || (q <=? p')
                                          || negb (Z.testbit m p')) (upto 0 8)))
           (upto 0 9)) (upto 0 64) = true) by (vm_compute; reflexivity).
  pose proof (forallb_upto _ _ _ Hall m Hm) as H1. cbv beta in H1.
  pose proof (forallb_upto _ _ _ H1 q ltac:(lia)) as H. cbv beta zeta in H.
  apply andb_true_iff in H as [H H3]. apply andb_true_iff in H as [H1' H2].
  apply Z.leb_le in H1'. split; [exact H1'|]. split.
  - intros Hz p Hp. rewrite Hz in H2. cbn in H2.
    pose proof (forallb_upto _ _ _ H2 p ltac:(lia)) as Hb. cbv beta in Hb.
    apply orb_true_iff in Hb as [Hb%Z.leb_le|Hb]; [lia|].
    now apply negb_true_iff in Hb.
  - intros Hpos. destruct (Z.ltb_spec 0 (count_bits (m mod 2 ^ q))); [|lia].
    cbn [negb orb] in H3.
    destruct (scan_row (downto 7 (-1)) (m mod 2 ^ q)) as [p r'].
    repeat (apply andb_true_iff in H3 as [H3 ?]).
    repeat match goal with
           | E : (_ =? _) = true |- _ => apply Z.eqb_eq in E
           | E : (_ <=? _) = true |- _ => apply Z.leb_le in E
           | E : (_ <? _) = true |- _ => apply Z.ltb_lt in E
           end.
    apply Z.leb_le in H3.
    repeat split; try assumption; try lia.
    intros p' Hp'.
    match goal with
    | E : forallb _ (upto 0 8) = true |- _ =>
        pose proof (forallb_upto _ _ _ E p' ltac:(lia)) as Hb
    end.
    cbv beta in Hb.
    apply orb_true_iff in Hb as [Hb|Hb]; [|now apply negb_true_iff in Hb].
    apply orb_true_iff in Hb as [Hb%Z.leb_le|Hb%Z.leb_le]; lia.
Qed.

Lemma write_to_buffer_outcome (inv : bool) (buf : list Z) (x m : Z) (nd : list Z)
    (cw : Z) (cm : bool) :
  0 <= m < 64 -> 0 <= x -> 0 <= cw -> x + cw <= 84 ->
  length buf = 504%nat ->
  cw * count_bits m <= Z.of_nat (length nd) ->
  exists buf',
    write_to_buffer inv buf x m nd cw (count_bits m) cm = Some buf'
    /\ length buf' = 504%nat
    /\ forall p j, 0 <= p < 6 -> 0 <= j < 84 ->
         load buf' (j + p * 84)
         = if Z.testbit m p && (x <=? j) && (j <? x + cw)
           then Some (merge_cell inv cm (rd buf (j + p * 84))
                                 (rd nd (j - x + pages_below m p * cw)))
           else load buf (j + p * 84).
Proof.
  intros Hm Hx Hcw Hfit Hlen Hnd. unfold write_to_buffer.
  set (body := fun (_ : Z) st => _).
  destruct (foldM_invariant
    (fun n st =>
       exists q, 0 <= q <= 8
         /\ wtb_rows st = m mod 2 ^ q
         /\ wtb_data_row st = count_bits (m mod 2 ^ q) - 1
         /\ count_bits (m mod 2 ^ q) = count_bits m - Z.of_nat n
         /\ length (wtb_buffer st) = 504%nat
         /\ forall p j, 0 <= p < 6 -> 0 <= j < 84 ->
              load (wtb_buffer st) (j + p * 84)
              = if Z.testbit m p && (q <=? p) && (x <=? j) && (j <? x + cw)
                then Some (merge_cell inv cm (rd buf (j + p * 84))
                                      (rd nd (j - x + pages_below m p * cw)))
                else load buf (j + p * 84))
    body (upto 0 (count_bits m))
    {| wtb_buffer := buf; wtb_rows := m; wtb_data_row := count_bits m - 1 |})
    as (st & Hrun & q & Hq & Hrows & Hrow & Hcount & Hlen' & Hcells).
  - exists 8. cbn [wtb_buffer wtb_rows wtb_data_row].
    assert (H8 : m mod 2 ^ 8 = m) by (apply Z.mod_small; lia).
    rewrite H8. repeat split; try lia; try assumption.
    intros p j Hp Hj. destruct (Z.leb_spec 8 p); [lia|].
    now rewrite andb_false_r.
  - intros n a [b r dr] Ha (q & Hq & Hrows & Hrow & Hcount & Hlen' & Hcells).
    cbn [wtb_buffer wtb_rows wtb_data_row] in *. subst r dr.
    apply lookup_upto in Ha as [_ Hn].
    destruct (scan_row_prefix m q Hm Hq) as (_ & _ & Hscan).
    specialize (Hscan ltac:(lia)).
    unfold body. cbn [wtb_buffer wtb_rows wtb_data_row].
    destruct (scan_row (downto 7 (-1)) (m mod 2 ^ q)) as [P r'].
    destruct Hscan as (HP & HP6 & -> & HbitP & HcountP & Habove).
    destruct (scan_row_prefix m P Hm ltac:(lia)) as (HposP & _ & _).
    destruct (merge_row inv cm nd cw (x + P * LCD_WIDTH)
                (count_bits (m mod 2 ^ q) - 1) b)
      as (b' & Hrun' & Hlenb & Hb'); [unfold LCD_WIDTH; first [lia|nia]..|].
    rewrite Hrun'. cbn [mbind option_bind]. unfold LCD_WIDTH in Hb'.
    eexists. split; [reflexivity|].
    exists P. cbn [wtb_buffer wtb_rows wtb_data_row].
    split; [lia|]. split; [reflexivity|]. split; [lia|]. split; [lia|].
    split; [lia|].
    intros p j Hp Hj. rewrite Hb', (Hcells p j Hp Hj).
    destruct (Z.eq_dec p P) as [->|HneP].
    + rewrite HbitP. destruct (Z.leb_spec q P); [lia|].
      destruct (Z.leb_spec P P); [|lia]. cbn [andb].
      destruct (Z.leb_spec x j), (Z.ltb_spec j (x + cw)),
               (Z.leb_spec (x + P * 84) (j + P * 84)),
               (Z.ltb_spec (j + P * 84) (x + P * 84 + cw));
        cbn [andb]; try reflexivity; try lia.
      do 2 f_equal.
      * apply rd_eq. rewrite (Hcells P j Hp Hj).
        destruct (Z.leb_spec q P); [lia|]. now rewrite andb_false_r.
      * unfold pages_below. f_equal. lia.
    + destruct (Z.leb_spec (x + P * 84) (j + p * 84)),
               (Z.ltb_spec (j + p * 84) (x + P * 84 + cw));
        cbn [andb]; try lia.
      all: destruct (Z.leb_spec q p), (Z.leb_spec P p);
        cbn [andb]; try reflexivity; try lia.
      all: try (rewrite (Habove p) by lia; reflexivity).
      all: now rewrite andb_false_r.
  - exists (wtb_buffer st). rewrite Hrun. split; [reflexivity|].
    split; [exact Hlen'|].
    intros p j Hp Hj. rewrite (Hcells p j Hp Hj).
    rewrite length_upto in Hcount.
    destruct (scan_row_prefix m q Hm Hq) as (Hpos & Hzero & _).
    destruct (scan_row_prefix m 8 Hm ltac:(lia)) as (Hpos8 & _ & _).
    assert (H8 : m mod 2 ^ 8 = m) by (apply Z.mod_small; lia).
    rewrite H8 in Hpos8.
    specialize (Hzero ltac:(lia)).
    destruct (Z.leb_spec q p); [now rewrite andb_true_r|].
    rewrite (Hzero p) by lia. reflexivity.
Qed.

(** [write_to_buffer], for a mask of the six pages, a glyph that fits
    between column [x] and the right edge, and as many rows of [new_data] as
    the mask has pages: every marked page gets, in columns [x] to
    [x + cw - 1], the merge of its old byte with the row of [new_data] whose
    number is the count of marked pages below it (the lowest marked page
    takes row 0); every other cell of the buffer is unchanged. *)
Theorem write_to_buffer_merges_rows_in_page_order (inv : bool) (buf : list Z)
    (x m : Z) (nd : list Z) (cw : Z) (cm : bool) :
  0 <= m < 64 -> 0 <= x -> 0 <= cw -> x + cw <= 84 ->
  length buf = 504%nat ->
  cw * count_bits m <= Z.of_nat (length nd) ->
  exists buf',
    write_to_buffer inv buf x m nd cw (count_bits m) cm = Some buf'
    /\ length buf' = 504%nat
    /\ forall p j, 0 <= p < 6 -> 0 <= j < 84 ->
         load buf' (j + p * 84)
         = if Z.testbit m p && (x <=? j) && (j <? x + cw)
           then Some (merge_cell inv cm (rd buf (j + p * 84))
                                 (rd nd (j - x + pages_below m p * cw)))
           else load buf (j + p * 84).
Proof. apply write_to_buffer_outcome. Qed.

Lemma write_to_buffer_merges_rows_in_page_order_witness :
  exists buf',
    write_to_buffer false (zeroed 504) 10 5 [1; 2; 3; 4] 2 (count_bits 5) false
    = Some buf'
    /\ length buf' = 504%nat
    /\ forall p j, 0 <= p < 6 -> 0 <= j < 84 ->
         load buf' (j + p * 84)
         = if Z.testbit 5 p && (10 <=? j) && (j <? 10 + 2)
           then Some (merge_cell false false (rd (zeroed 504) (j + p * 84))
                                 (rd [1; 2; 3; 4] (j - 10 + pages_below 5 p * 2)))
           else load (zeroed 504) (j + p * 84).
Proof.
  apply (write_to_buffer_merges_rows_in_page_order
           false (zeroed 504) 10 5 [1; 2; 3; 4] 2 false); by_eval.
Defined.

(** ** Placing the same glyph twice *)

Lemma merge_cell_idempotent (inv cm : bool) (cell d : Z) :
  merge_cell inv cm (merge_cell inv cm cell d) d = merge_cell inv cm cell d.
Proof.
  destruct inv, cm.
  - now rewrite !merge_cell_invert_char.
  - rewrite !merge_cell_invert_area, !u8_land.
    apply Z.bits_inj'. intros k Hk. rewrite !Z.land_spec.
    destruct (Z.testbit cell k), (Z.testbit (Z.lnot d) k), (Z.testbit 255 k);
      reflexivity.
  - rewrite !merge_cell_plain, !u8_land.
    apply Z.bits_inj'. intros k Hk. rewrite !Z.land_spec, !Z.lor_spec, !Z.land_spec, !Z.lor_spec.
    destruct (Z.testbit cell k), (Z.testbit d k), (Z.testbit 255 k); reflexivity.
  - rewrite !merge_cell_plain, !u8_land.
    apply Z.bits_inj'. intros k Hk. rewrite !Z.land_spec, !Z.lor_spec, !Z.land_spec, !Z.lor_spec.
    destruct (Z.testbit cell k), (Z.testbit d k), (Z.testbit 255 k); reflexivity.
Qed.

Lemma foldM_preserves {A S : Type} (P : S -> Prop) (body : A -> S -> option S)
    (l : list A) :
  (forall a s s', P s -> body a s = Some s' -> P s') ->
  forall s s', P s -> foldM body l s = Some s' -> P s'.
Proof.
  intros Hbody. induction l as [|a l IH]; intros s s' Hs Hrun.
  - now injection Hrun as <-.
  - cbn [foldM] in Hrun. destruct (body a s) as [s1|] eqn:E; [|discriminate Hrun].
    apply (IH s1 s'); [apply (Hbody a s s1 Hs E)|exact Hrun].
Qed.

Lemma shift_data_length (data : list Z) (cw : Z) (nd : list Z) (s bc : Z)
    (nd' : list Z) :
  shift_data data cw nd s bc = Some nd' -> length nd' = length nd.
Proof.
  unfold shift_data. intros H.
  destruct (s =? 0); [|destruct (negb (bc =? 1))].
  - revert H. apply (foldM_preserves (fun a => length a = length nd)); [|reflexivity].
    intros i a a' Ha. apply (foldM_preserves (fun a => length a = length nd)); [|exact Ha].
    clear. intros j a a' Ha H.
    destruct (load data _) as [d|]; [|discriminate H]. cbn [mbind option_bind] in H.
    now rewrite (store_length _ _ _ _ H).
  - revert H. apply (foldM_preserves (fun a => length a = length nd)); [|reflexivity].
    intros i a a' Ha. apply (foldM_preserves (fun a => length a = length nd)); [|exact Ha].
    clear. intros j a a' Ha H.
    destruct (load a _) as [hi|]; [|discriminate H]. cbn [mbind option_bind] in H.
    destruct (load data _) as [d|]; [|discriminate H]. cbn [mbind option_bind] in H.
    destruct (store a _ _) as [a1|] eqn:E1; [|discriminate H]. cbn [mbind option_bind] in H.
    destruct (load a1 _) as [lo|]; [|discriminate H]. cbn [mbind option_bind] in H.
    rewrite (store_length _ _ _ _ H), (store_length _ _ _ _ E1). exact Ha.
  - revert H. apply (foldM_preserves (fun a => length a = length nd)); [|reflexivity].
    intros i a a' Ha H.
    destruct (load data _) as [d|]; [|discriminate H]. cbn [mbind option_bind] in H.
    now rewrite (store_length _ _ _ _ H).
Qed.

Lemma find_affected_rows_on_display (y h : Z) :
  0 <= y < 48 -> 1 <= h -> y + h <= 48 -> 0 <= find_affected_rows y h < 64.
Proof.
  intros Hy Hh Hfit.
  assert (Hall : forallb (fun y => forallb (fun h =>
             (48 <? y + h)
             || ((0 <=? find_affected_rows y h) && (find_affected_rows y h <? 64)))
           (upto 1 49)) (upto 0 48) = true) by (vm_compute; reflexivity).
  pose proof (forallb_upto _ _ _ Hall y Hy) as H1. cbv beta in H1.
  pose proof (forallb_upto _ _ _ H1 h ltac:(lia)) as H. cbv beta in H.
  apply orb_true_iff in H as [H%Z.ltb_lt|H]; [lia|].
  apply andb_true_iff in H as [H2%Z.leb_le H3%Z.ltb_lt]. lia.
Qed.

Lemma refresh_screen_outcome (lcd : LcdDriver) :
  length (buffer lcd) = 504%nat ->
  exists lcd',
    refresh_screen lcd = Some lcd'
    /\ buffer lcd' = buffer lcd /\ inverttext lcd' = inverttext lcd.
Proof.
  intros Hlen. unfold refresh_screen.
  rewrite (foldM_ext _ (fun i lcd =>
             foldM (fun k lcd => b ← load (buffer lcd) k; Some (write b LCD_DATA lcd))
                   ((fun j => i * LCD_WIDTH + j) <$> upto 0 LCD_WIDTH) lcd))
    by (intros i s _; now rewrite foldM_fmap).
  rewrite (foldM_bind (fun k lcd => b ← load (buffer lcd) k; Some (write b LCD_DATA lcd))
                      (fun i => (fun j => i * LCD_WIDTH + j) <$> upto 0 LCD_WIDTH)).
  rewrite refresh_order.
  destruct (stream_outcome (setXY LCD_SETXADDR LCD_SETYADDR lcd) Hlen)
    as (lcd' & Hrun & Hb & Hi & _).
  exists lcd'. split; [exact Hrun|]. split; assumption.
Qed.

Lemma refresh_screen_Some (lcd lcd' : LcdDriver) :
  length (buffer lcd) = 504%nat -> refresh_screen lcd = Some lcd' ->
  buffer lcd' = buffer lcd /\ inverttext lcd' = inverttext lcd.
Proof.
  intros Hlen Hrun. destruct (refresh_screen_outcome lcd Hlen) as (l & Hl & H).
  rewrite Hl in Hrun. now injection Hrun as <-.
Qed.

(** A linear index of the buffer is a column of a page. *)
Lemma cell_of_index (k : Z) :
  0 <= k < 504 -> exists p j, 0 <= p < 6 /\ 0 <= j < 84 /\ k = j + p * 84.
Proof.
  intros Hk. exists (k / 84), (k mod 84).
  pose proof (Z.div_mod k 84 ltac:(lia)).
  pose proof (Z.mod_pos_bound k 84 ltac:(lia)).
  assert (0 <= k / 84) by (apply Z.div_pos; lia).
  assert (k / 84 < 6) by (apply Z.div_lt_upper_bound; lia).
  lia.
Qed.

(** Placing a glyph a second time at the same place changes nothing in the
    buffer, under every merge policy: if [put_char_xy] succeeds for a
    placement inside the display, repeating it succeeds and leaves the
    buffer as the first placement left it. *)
Theorem put_char_xy_twice_is_once (c : custom_char) (x y : Z)
    (lcd lcd1 : LcdDriver) :
  0 <= x -> 0 <= char_width c -> x + char_width c <= 84 ->
  0 <= y < 48 -> 1 <= char_height c -> y + char_height c <= 48 ->
  length (buffer lcd) = 504%nat ->
  put_char_xy c x y lcd = Some lcd1 ->
  exists lcd2, put_char_xy c x y lcd1 = Some lcd2 /\ buffer lcd2 = buffer lcd1.
Proof.
  intros Hx Hcw Hfitx Hy Hh Hfity Hlen Hrun.
  unfold put_char_xy in *.
  rewrite (u8_id (char_height c)) in * by (unfold is_u8; lia).
  set (m := find_affected_rows y (char_height c)) in *.
  pose proof (find_affected_rows_on_display y (char_height c) Hy Hh Hfity) as Hm.
  fold m in Hm.
  destruct (shift_data _ _ _ _ _) as [nd|] eqn:Hsd; [|discriminate Hrun].
  cbn [mbind option_bind] in *.
  pose proof (shift_data_length _ _ _ _ _ _ Hsd) as Hnd.
  rewrite length_zeroed in Hnd.
  destruct (scan_row_prefix m 8 Hm ltac:(lia)) as (Hpos & _ & _).
  replace (m mod 2 ^ 8) with m in Hpos by (symmetry; apply Z.mod_small; lia).
  assert (Hndlen : char_width c * count_bits m <= Z.of_nat (length nd)) by nia.
  destruct (write_to_buffer_outcome (inverttext lcd) (buffer lcd) x m nd
              (char_width c) false Hm Hx Hcw Hfitx Hlen Hndlen)
    as (b1 & Hw1 & Hlen1 & Hcells1).
  rewrite Hw1 in Hrun. cbn [mbind option_bind] in Hrun.
  destruct (refresh_screen_Some (with_buffer lcd b1) lcd1 Hlen1 Hrun) as [Hb1 Hi1].
  cbn [buffer with_buffer inverttext] in Hb1, Hi1.
  rewrite Hb1, Hi1.
  destruct (write_to_buffer_outcome (inverttext lcd) b1 x m nd
              (char_width c) false Hm Hx Hcw Hfitx Hlen1 Hndlen)
    as (b2 & Hw2 & Hlen2 & Hcells2).
  rewrite Hw2. cbn [mbind option_bind].
  assert (Hsame : b2 = b1).
  { apply list_eq. intros k.
    destruct (decide (k < 504)%nat) as [Hk|Hk].
    - destruct (cell_of_index (Z.of_nat k) ltac:(lia)) as (p & j & Hp & Hj & Hkeq).
      rewrite <- !load_of_nat, Hkeq, (Hcells2 p j Hp Hj).
      destruct (Z.testbit m p && (x <=? j) && (j <? x + char_width c)) eqn:Hcond.
      + assert (Hrd : rd b1 (j + p * 84)
                      = merge_cell (inverttext lcd) false (rd (buffer lcd) (j + p * 84))
                          (rd nd (j - x + pages_below m p * char_width c))).
        { unfold rd at 1. now rewrite (Hcells1 p j Hp Hj), Hcond. }
        rewrite Hrd, merge_cell_idempotent, <- Hrd.
        symmetry. apply load_rd. lia.
      + reflexivity.
    - rewrite !lookup_ge_None_2; [reflexivity|lia|lia]. }
  rewrite Hsame.
  destruct (refresh_screen_outcome (with_buffer lcd1 b1) Hlen1) as (lcd2 & Hr2 & Hb2 & _).
  exists lcd2. split; [exact Hr2|]. exact Hb2.
Qed.

Lemma put_char_xy_twice_is_once_witness :
  exists lcd2,
    put_char_xy all_ones_5x8 10 4
      (default cleared (put_char_xy all_ones_5x8 10 4 cleared)) = Some lcd2
    /\ buffer lcd2 = buffer (default cleared (put_char_xy all_ones_5x8 10 4 cleared)).
Proof.
  apply (put_char_xy_twice_is_once all_ones_5x8 10 4 cleared
           (default cleared (put_char_xy all_ones_5x8 10 4 cleared)));
    vm_compute; repeat split; first [reflexivity | discriminate].
Defined.

(** ** What a placement draws *)

Lemma testbit_u8_high (z k : Z) : is_u8 z -> 8 <= k -> Z.testbit z k = false.
Proof.
  intros [Hlo Hhi] Hk. destruct (Z.eq_dec z 0) as [->|Hz]; [apply Z.bits_0|].
  apply Z.bits_above_log2; [lia|].
  assert (Z.log2 z < 8) by (apply Z.log2_lt_pow2; lia). lia.
Qed.

Lemma rd_bytes (a : list Z) (k : Z) : bytes a -> is_u8 (rd a k).
Proof.
  intros Ha. unfold rd. destruct (load a k) as [v|] eqn:E; cbn.
  - unfold load in E. destruct (0 <=? k); [|discriminate E].
    unfold bytes in Ha. rewrite Forall_lookup in Ha. apply (Ha _ _ E).
  - unfold is_u8. lia.
Qed.

(** The pages a placement resolves to when it neither ends on a page
    boundary above the last page nor fails to spill: the [pages_needed]
    consecutive pages from page [y / 8] on. *)
Lemma resolved_pages (y h : Z) :
  0 <= y < 48 -> 1 <= h -> y + h <= 48 ->
  ((y + h) mod 8 <> 0 \/ y + h = 48) ->
  (y mod 8 = 0 \/ 8 * ceil8 h < y mod 8 + h) ->
  count_bits (find_affected_rows y h) = pages_needed y h
  /\ y / 8 + pages_needed y h <= 6
  /\ forall p, 0 <= p < 8 ->
       Z.testbit (find_affected_rows y h) p
       = ((y / 8 <=? p) && (p <? y / 8 + pages_needed y h))
       /\ (y / 8 <= p < y / 8 + pages_needed y h ->
           pages_below (find_affected_rows y h) p = p - y / 8).
Proof.
  intros Hy Hh Hfit HA HB.
  assert (Hall : forallb (fun y => forallb (fun h =>
             let m := find_affected_rows y h in
             let P := y / 8 in
             let bc := pages_needed y h in
             (48 <? y + h)
             || ((y + h) mod 8 =? 0) && negb (y + h =? 48)
             || negb (y mod 8 =? 0) && negb (8 * ceil8 h <? y mod 8 + h)
             || ((count_bits m =? bc) && (P + bc <=? 6)
                 && forallb (fun p =>
                      Bool.eqb (Z.testbit m p) ((P <=? p) && (p <? P + bc))
                      && (negb ((P <=? p) && (p <? P + bc))
                          || (pages_below m p =? p - P)))
                      (upto 0 8)))
           (upto 1 49)) (upto 0 48) = true) by (vm_compute; reflexivity).
  pose proof (forallb_upto _ _ _ Hall y Hy) as H1. cbv beta in H1.
  pose proof (forallb_upto _ _ _ H1 h ltac:(lia)) as H. cbv beta zeta in H.
  apply orb_true_iff in H as [H|H].
  { exfalso. apply orb_true_iff in H as [H|H].
    - apply orb_true_iff in H as [H%Z.ltb_lt|H]; [lia|].
      apply andb_true_iff in H as [H2%Z.eqb_eq H3%negb_true_iff%Z.eqb_neq]. lia.
    - apply andb_true_iff in H as [H2%negb_true_iff%Z.eqb_neq H3%negb_true_iff%Z.ltb_ge].
      lia. }
  apply andb_true_iff in H as [H Hp]. apply andb_true_iff in H as [Hc%Z.eqb_eq Hs%Z.leb_le].
  split; [exact Hc|]. split; [exact Hs|].
  intros p Hp'. pose proof (forallb_upto _ _ _ Hp p Hp') as Hb. cbv beta in Hb.
  apply andb_true_iff in Hb as [Hb1%Bool.eqb_prop Hb2]. split; [exact Hb1|].
  intros Hin. apply orb_true_iff in Hb2 as [Hb2|Hb2%Z.eqb_eq]; [|exact Hb2].
  apply negb_true_iff, andb_false_iff in Hb2 as [Hb2%Z.leb_gt|Hb2%Z.ltb_ge]; lia.
Qed.

(** Bit [b] of the byte [shift_data] produces for column [i] and
    destination row [r] is the glyph's pixel [8 * r + b - y % 8] of that
    column. *)
Lemma shift_data_bits (c : custom_char) (y : Z) :
  bytes (data c) ->
  0 <= char_width c < 256 -> 0 <= y -> 1 <= char_height c ->
  char_width c * ceil8 (char_height c) <= Z.of_nat (length (data c)) ->
  let bc := pages_needed y (char_height c) in
  exists nd,
    shift_data (data c) (u8 (char_width c)) (zeroed (char_width c * bc))
               (u8 (Z.rem y 8)) bc = Some nd
    /\ Z.of_nat (length nd) = char_width c * bc
    /\ forall i r b, 0 <= i < char_width c -> 0 <= r < bc -> 0 <= b < 8 ->
         Z.testbit (rd nd (i + r * char_width c)) b
         = glyph_pixel c i (8 * r + b - y mod 8).
Proof.
  intros Hbytes Hcw Hy Hh Hdata bc.
  set (cw := char_width c) in *. set (rows := ceil8 (char_height c)) in *.
  assert (Hrows : 1 <= rows).
  { unfold rows, ceil8. apply Z.div_le_lower_bound; lia. }
  rewrite (u8_id cw) by exact Hcw.
  assert (Hs : 0 <= y mod 8 < 8) by (apply Z.mod_pos_bound; lia).
  rewrite Z.rem_mod_nonneg by lia. rewrite (u8_id (y mod 8)) by (unfold is_u8; lia).
  unfold bc, pages_needed. fold rows.
  destruct (Z.eqb_spec (y mod 8) 0) as [Hs0|Hs0].
  - (* the copy *)
    rewrite Hs0, Z.add_0_r, shift_data_copy.
    destruct (foldM_map_into id (data c) (glyph_cells cw rows) (zeroed (cw * rows)))
      as (nd & Hrun & Hlen & Hset & _).
    { intros k (i & j & Hi & Hj & ->)%elem_of_glyph_cells.
      pose proof (glyph_cell_bound _ _ _ _ Hi Hj). rewrite length_zeroed. lia. }
    exists nd. split; [exact Hrun|]. split.
    { rewrite Hlen, length_zeroed. nia. }
    intros i r b Hi Hr Hb.
    assert (Hk : rd nd (i + r * cw) = rd (data c) (i + r * cw)).
    { unfold rd. rewrite Hset by (apply elem_of_glyph_cells; eauto).
      destruct (load (data c) (i + r * cw)); reflexivity. }
    rewrite Hk. unfold glyph_pixel. fold cw rows.
    replace (8 * r + b - 0) with (b + r * 8) by lia.
    rewrite Z.div_add, Z.mod_add, Z.div_small, Z.mod_small by lia.
    destruct (Z.leb_spec 0 i), (Z.ltb_spec i cw), (Z.leb_spec 0 (b + r * 8)),
             (Z.ltb_spec (b + r * 8) (8 * rows)); try lia.
    cbn [andb]. now rewrite Z.add_0_l.
  - (* the carrying branch *)
    set (n := Z.to_nat rows).
    assert (Hn : Z.of_nat n = rows) by lia.
    destruct (shift_data_carry (data c) cw (zeroed (cw * (rows + 1))) (y mod 8) n)
      as (nd & Hrun & Hlen & Hcells & _);
      [lia | lia | lia | rewrite length_zeroed; nia | nia |].
    rewrite Hn in Hrun, Hcells. exists nd. split; [exact Hrun|]. split.
    { rewrite Hlen, length_zeroed. nia. }
    intros i r b Hi Hr Hb.
    assert (Hk : rd nd (i + r * cw)
                 = shifted_cell (y mod 8) rows r 0 (rd (data c) (i + r * cw))
                                (rd (data c) (i + (r - 1) * cw))).
    { unfold rd at 1. rewrite (Hcells i r Hi) by lia. cbn [default].
      f_equal. unfold rd. rewrite load_zeroed by nia. reflexivity. }
    rewrite Hk. unfold shifted_cell, glyph_pixel. fold cw rows.
    destruct (Z.leb_spec 0 i), (Z.ltb_spec i cw); try lia. cbn [andb].
    pose proof (rd_bytes (data c) (i + r * cw) Hbytes) as Hd.
    pose proof (rd_bytes (data c) (i + (r - 1) * cw) Hbytes) as Hdp.
    set (d := rd (data c) (i + r * cw)) in *.
    set (dp := rd (data c) (i + (r - 1) * cw)) in *.
    set (s := y mod 8) in *.
    assert (Hlow : Z.testbit (if r <? rows then u8 (Z.lor 0 (Z.shiftl d s)) else 0) b
                   = (r <? rows) && Z.testbit d (b - s)).
    { destruct (r <? rows); [|apply Z.bits_0].
      now rewrite Z.lor_0_l, testbit_u8, Z.shiftl_spec by lia. }
    assert (Hbit : Z.testbit
                     (if 0 <? r
                      then u8 (Z.lor (if r <? rows then u8 (Z.lor 0 (Z.shiftl d s)) else 0)
                                     (Z.shiftr dp (8 - s)))
                      else if r <? rows then u8 (Z.lor 0 (Z.shiftl d s)) else 0) b
                   = ((r <? rows) && Z.testbit d (b - s))
                     || ((0 <? r) && Z.testbit dp (b + 8 - s))).
    { destruct (0 <? r).
      - rewrite testbit_u8, Z.lor_spec, Hlow, Z.shiftr_spec by lia.
        cbn [andb]. replace (b + (8 - s)) with (b + 8 - s) by lia. reflexivity.
      - rewrite Hlow. now rewrite orb_false_r. }
    rewrite Hbit.
    destruct (Z.le_gt_cases s b) as [Hge|Hlt].
    + (* the bit comes from the row's own byte *)
      rewrite (testbit_u8_high dp (b + 8 - s) Hdp) by lia.
      rewrite andb_false_r, orb_false_r.
      replace (8 * r + b - s) with ((b - s) + r * 8) by lia.
      rewrite Z.div_add, Z.mod_add, Z.div_small, Z.mod_small by lia.
      rewrite Z.add_0_l. fold d.
      destruct (Z.leb_spec 0 (b - s + r * 8)), (Z.ltb_spec (b - s + r * 8) (8 * rows)),
               (Z.ltb_spec r rows); cbn [andb]; try reflexivity; lia.
    + (* the bit is carried from the row above *)
      rewrite (Z.testbit_neg_r d (b - s)) by lia.
      rewrite andb_false_r, orb_false_l.
      replace (8 * r + b - s) with ((b + 8 - s) + (r - 1) * 8) by lia.
      rewrite Z.div_add, Z.mod_add, Z.div_small, Z.mod_small by lia.
      rewrite Z.add_0_l. fold dp.
      destruct (Z.leb_spec 0 (b + 8 - s + (r - 1) * 8)),
               (Z.ltb_spec (b + 8 - s + (r - 1) * 8) (8 * rows)),
               (Z.ltb_spec 0 r); cbn [andb]; try reflexivity; lia.
Qed.

Lemma put_char_xy_pixels (c : custom_char) (x y : Z) (lcd : LcdDriver) :
  bytes (data c) ->
  0 <= x -> 0 <= char_width c -> x + char_width c <= 84 ->
  0 <= y < 48 -> 1 <= char_height c -> y + char_height c <= 48 ->
  ((y + char_height c) mod 8 <> 0 \/ y + char_height c = 48) ->
  (y mod 8 = 0 \/ 8 * ceil8 (char_height c) < y mod 8 + char_height c) ->
  char_width c * ceil8 (char_height c) <= Z.of_nat (length (data c)) ->
  length (buffer lcd) = 504%nat ->
  exists lcd',
    put_char_xy c x y lcd = Some lcd'
    /\ length (buffer lcd') = 504%nat
    /\ inverttext lcd' = inverttext lcd
    /\ forall x' y', 0 <= x' < 84 -> 0 <= y' < 48 ->
         pixel (buffer lcd') x' y'
         = (fun old => if inverttext lcd
                       then old && negb (glyph_pixel c (x' - x) (y' - y))
                       else old || glyph_pixel c (x' - x) (y' - y))
             <$> pixel (buffer lcd) x' y'.
Proof.
  intros Hbytes Hx Hcw Hfitx Hy Hh Hfity HA HB Hdata Hlen.
  set (cw := char_width c) in *. set (h := char_height c) in *.
  destruct (resolved_pages y h Hy Hh Hfity HA HB) as (Hcount & Hlast & Hmask).
  pose proof (find_affected_rows_on_display y h Hy Hh Hfity) as Hm.
  destruct (shift_data_bits c y Hbytes ltac:(fold cw; lia) ltac:(lia) Hh Hdata)
    as (nd & Hsd & Hndlen & Hbits).
  fold cw h in Hsd, Hndlen, Hbits.
  unfold put_char_xy. fold cw h. rewrite (u8_id h) by (unfold is_u8; lia).
  set (m := find_affected_rows y h) in *.
  rewrite Hcount, Hsd. cbn [mbind option_bind].
  rewrite <- Hcount.
  destruct (write_to_buffer_outcome (inverttext lcd) (buffer lcd) x m nd cw false
              Hm Hx Hcw Hfitx Hlen ltac:(rewrite Hcount; lia))
    as (b1 & Hw & Hlen1 & Hcells).
  rewrite Hw. cbn [mbind option_bind].
  destruct (refresh_screen_outcome (with_buffer lcd b1) Hlen1) as (lcd' & Hr & Hb' & Hi').
  exists lcd'. split; [exact Hr|].
  split; [now rewrite Hb'|]. split; [exact Hi'|].
  intros x' y' Hx' Hy'. rewrite Hb'. cbn [buffer with_buffer].
  destruct (row_split y' ltac:(lia)) as (Hsplit & Hrem & Hquot).
  assert (Hq6 : y' ÷ 8 < 6) by lia.
  set (p := y' ÷ 8) in *. set (b := Z.rem y' 8) in *.
  assert (HyP : y = 8 * (y / 8) + y mod 8) by (apply Z.div_mod; lia).
  assert (Hs : 0 <= y mod 8 < 8) by (apply Z.mod_pos_bound; lia).
  assert (HP : 0 <= y / 8) by (apply Z.div_pos; lia).
  set (P := y / 8) in *. set (s := y mod 8) in *.
  set (bc := pages_needed y h) in *.
  assert (Hrows : 1 <= ceil8 h).
  { unfold ceil8. apply Z.div_le_lower_bound; lia. }
  assert (Hbc : bc = ceil8 h + (if s =? 0 then 0 else 1)) by reflexivity.
  unfold pixel. fold p b. unfold LCD_WIDTH.
  rewrite (Hcells p x' ltac:(lia) Hx').
  rewrite (load_rd (buffer lcd) (x' + p * 84)) by lia.
  cbn [mbind option_bind fmap option_fmap option_map].
  destruct (Hmask p ltac:(lia)) as [Hbit Hbelow]. rewrite Hbit.
  destruct (Z.leb_spec P p) as [HPp|HPp], (Z.ltb_spec p (P + bc)) as [Hpb|Hpb],
           (Z.leb_spec x x') as [Hxl|Hxl], (Z.ltb_spec x' (x + cw)) as [Hxr|Hxr];
    cbn [andb mbind option_bind].
  1:{ (* a cell the glyph is merged into *)
      rewrite Hbelow by lia.
      assert (Hgp : Z.testbit (rd nd (x' - x + (p - P) * cw)) b
                    = glyph_pixel c (x' - x) (y' - y)).
      { rewrite (Hbits (x' - x) (p - P) b) by lia. f_equal. lia. }
      destruct (inverttext lcd).
      - rewrite merge_cell_invert_area, testbit_u8, Z.land_spec, Z.lnot_spec by lia.
        now rewrite Hgp.
      - rewrite merge_cell_plain, testbit_u8, Z.lor_spec by lia.
        now rewrite Hgp. }
  (* cells outside the glyph: its pixel there is off *)
  all: cbn [mbind option_bind]; f_equal.
  all: enough (Hgp : glyph_pixel c (x' - x) (y' - y) = false)
         by (rewrite Hgp; destruct (inverttext lcd);
             [now rewrite andb_true_r | now rewrite orb_false_r]).
  all: unfold glyph_pixel; fold cw h.
  all: destruct (Z.leb_spec 0 (x' - x)), (Z.ltb_spec (x' - x) cw),
                (Z.leb_spec 0 (y' - y)), (Z.ltb_spec (y' - y) (8 * ceil8 h));
       cbn [andb]; try reflexivity; exfalso.
  all: destruct (Z.eqb_spec s 0); lia.
Qed.

(** [put_char_xy] draws the glyph and nothing else: it succeeds, and every
    pixel [(x', y')] of the display is what it was, combined with the
    glyph's pixel [(x' - x, y' - y)]: ORed with it when the invert flag is
    off, switched off where the glyph is on when the invert flag is set.
    This holds for a placement inside the display whose glyph holds its
    ceil([h] / 8) page rows in bytes, provided the placement does not end on
    a page boundary above the last page (the case in which one page too many
    is resolved) and, when [y] is not a multiple of 8, provided the moved
    glyph spills into one more page than it has rows (as every glyph whose
    height is a multiple of 8 does). *)
Theorem put_char_xy_draws_glyph (c : custom_char) (x y : Z) (lcd : LcdDriver) :
  bytes (data c) ->
  0 <= x -> 0 <= char_width c -> x + char_width c <= 84 ->
  0 <= y < 48 -> 1 <= char_height c -> y + char_height c <= 48 ->
  ((y + char_height c) mod 8 <> 0 \/ y + char_height c = 48) ->
  (y mod 8 = 0 \/ 8 * ceil8 (char_height c) < y mod 8 + char_height c) ->
  char_width c * ceil8 (char_height c) <= Z.of_nat (length (data c)) ->
  length (buffer lcd) = 504%nat ->
  exists lcd',
    put_char_xy c x y lcd = Some lcd'
    /\ forall x' y', 0 <= x' < 84 -> 0 <= y' < 48 ->
         pixel (buffer lcd') x' y'
         = (fun old => if inverttext lcd
                       then old && negb (glyph_pixel c (x' - x) (y' - y))
                       else old || glyph_pixel c (x' - x) (y' - y))
             <$> pixel (buffer lcd) x' y'.
Proof.
  intros Hbytes Hx Hcw Hfitx Hy Hh Hfity HA HB Hdata Hlen.
  destruct (put_char_xy_pixels c x y lcd Hbytes Hx Hcw Hfitx Hy Hh Hfity HA HB
              Hdata Hlen) as (lcd' & Hrun & _ & _ & Hpix).
  exists lcd'. split; assumption.
Qed.

Lemma put_char_xy_draws_glyph_witness :
  exists lcd',
    put_char_xy all_ones_5x8 10 4 cleared = Some lcd'
    /\ forall x' y', 0 <= x' < 84 -> 0 <= y' < 48 ->
         pixel (buffer lcd') x' y'
         = (fun old => if inverttext cleared
                       then old && negb (glyph_pixel all_ones_5x8 (x' - 10) (y' - 4))
                       else old || glyph_pixel all_ones_5x8 (x' - 10) (y' - 4))
             <$> pixel (buffer cleared) x' y'.
Proof.
  apply (put_char_xy_draws_glyph all_ones_5x8 10 4 cleared);
    try (vm_compute; repeat split; first [reflexivity | discriminate]).
  - repeat constructor; unfold is_u8; lia.
  - left. vm_compute. discriminate.
  - right. vm_compute. reflexivity.
Defined.

(** ** What a line of text draws *)

Lemma print_buffer_char_is_placement (c x y : Z) (f : font) (lcd : LcdDriver) :
  0 <= columns f < 256 -> length (glyphs f) = 95%nat ->
  print_buffer_char c x y f lcd = put_char_xy (font_char f c) x y lcd.
Proof.
  intros HN Hlen. unfold print_buffer_char, put_char_xy, font_char.
  cbn [char_width char_height data].
  destruct (load_glyph_in_range f (glyph_index c)) as [g Hg].
  { pose proof (glyph_index_range c). lia. }
  rewrite Hg. cbn [mbind option_bind default].
  rewrite (u8_id (columns f)) by exact HN. reflexivity.
Qed.

(** [print_buffer] draws the string and nothing else.  For a font of
    [N <= 8] columns whose 95 glyphs are [N] bytes each, a string without a
    NUL that fits between [x] and the right edge, and a row [y] for which
    the [N] rows from [y] neither end on a page boundary above the last page
    nor stay within their page when [y] is not a multiple of 8: the call
    succeeds, and every pixel of the display is what it was, combined with
    the pixel of the text at that place, the glyph of the [k]-th character
    standing [k * N] columns right of [x].  The text is ORed in when the
    invert flag is off and switched off in the buffer when it is set. *)
Theorem print_buffer_draws_text (f : font) (str : list Z) (x y : Z)
    (lcd : LcdDriver) :
  1 <= columns f <= 8 ->
  length (glyphs f) = 95%nat ->
  Forall (fun g => bytes g /\ Z.of_nat (length g) = columns f) (glyphs f) ->
  Forall (fun c => c <> 0) str ->
  0 <= x -> x + columns f * Z.of_nat (length str) <= 84 ->
  0 <= y < 48 -> y + columns f <= 48 ->
  ((y + columns f) mod 8 <> 0 \/ y + columns f = 48) ->
  (y mod 8 = 0 \/ 8 < y mod 8 + columns f) ->
  length (buffer lcd) = 504%nat ->
  exists lcd',
    print_buffer str x y f lcd = Some lcd'
    /\ forall x' y', 0 <= x' < 84 -> 0 <= y' < 48 ->
         pixel (buffer lcd') x' y'
         = (fun old => if inverttext lcd
                       then old && negb (text_pixel f str (x' - x) (y' - y))
                       else old || text_pixel f str (x' - x) (y' - y))
             <$> pixel (buffer lcd) x' y'.
Proof.
  intros HN Hglyphs Hwf Hstr Hx Hfit Hy Hfity HA HB.
  assert (Hceil : ceil8 (columns f) = 1).
  { unfold ceil8. symmetry. apply (Z.div_unique _ _ _ (columns f - 1)); lia. }
  revert x lcd Hx Hfit. induction str as [|c rest IH]; intros x lcd Hx Hfit Hlen.
  - exists lcd. split; [reflexivity|]. intros x' y' Hx' Hy'. cbn [text_pixel].
    destruct (pixel (buffer lcd) x' y') as [old|]; [|reflexivity]. cbn.
    destruct (inverttext lcd); [now rewrite andb_true_r|now rewrite orb_false_r].
  - apply Forall_cons in Hstr as [Hc Hrest].
    cbn [length] in Hfit.
    cbn [print_buffer]. destruct (Z.eqb_spec c 0); [contradiction|].
    rewrite print_buffer_char_is_placement by (assumption || lia).
    destruct (load_glyph_in_range f (glyph_index c)) as [g Hg].
    { pose proof (glyph_index_range c). lia. }
    assert (Hgwf : bytes g /\ Z.of_nat (length g) = columns f).
    { unfold load_glyph in Hg. destruct (0 <=? glyph_index c); [|discriminate Hg].
      rewrite Forall_lookup in Hwf. apply (Hwf _ _ Hg). }
    destruct (put_char_xy_pixels (font_char f c) x y lcd)
      as (lcd1 & Hrun1 & Hlen1 & Hinv1 & Hpix1);
      [unfold font_char; cbn [char_width char_height data]; rewrite ?Hg, ?Hceil;
       change (default [] (Some g)) with g; first [lia | nia | tauto | assumption]..|].
    rewrite Hrun1. cbn [mbind option_bind].
    rewrite (u8_id (x + columns f)) by (unfold is_u8; nia).
    destruct (IH Hrest (x + columns f) lcd1 ltac:(lia) ltac:(nia) Hlen1)
      as (lcd' & Hrun & Hpix).
    exists lcd'. split; [exact Hrun|].
    intros x' y' Hx' Hy'.
    rewrite (Hpix x' y' Hx' Hy'), (Hpix1 x' y' Hx' Hy'), Hinv1.
    cbn [text_pixel].
    replace (x' - (x + columns f)) with (x' - x - columns f) by lia.
    destruct (pixel (buffer lcd) x' y') as [old|]; [|reflexivity].
    cbn [fmap option_fmap option_map]. f_equal.
    destruct (inverttext lcd), old,
             (glyph_pixel (font_char f c) (x' - x) (y' - y)),
             (text_pixel f rest (x' - x - columns f) (y' - y)); reflexivity.
Qed.

Lemma print_buffer_draws_text_witness :
  exists lcd',
    print_buffer [72; 105] 20 20 five_column_font cleared = Some lcd'
    /\ forall x' y', 0 <= x' < 84 -> 0 <= y' < 48 ->
         pixel (buffer lcd') x' y'
         = (fun old => if inverttext cleared
                       then old && negb (text_pixel five_column_font [72; 105]
                                                    (x' - 20) (y' - 20))
                       else old || text_pixel five_column_font [72; 105]
                                              (x' - 20) (y' - 20))
             <$> pixel (buffer cleared) x' y'.
Proof.
  apply (print_buffer_draws_text five_column_font [72; 105] 20 20 cleared);
    try (vm_compute; repeat split; first [reflexivity | discriminate]).
  - apply Forall_forall. intros g Hg. unfold five_column_font in Hg.
    cbn [glyphs] in Hg. apply elem_of_replicate in Hg as [-> _].
    split; [|reflexivity]. repeat constructor; unfold is_u8; lia.
  - repeat constructor; discriminate.
  - left. vm_compute. discriminate.
  - right. vm_compute. reflexivity.
Defined.

(** ** Font tables *)

Lemma cell_of_lookup (f : font) (i j : nat) (g : list Z) (v : Z) :
  glyphs f !! i = Some g -> g !! j = Some v ->
  cell_of f (Z.of_nat i) (Z.of_nat j) = v.
Proof.
  intros Hg Hv. unfold cell_of, load_glyph.
  destruct (Z.leb_spec 0 (Z.of_nat i)); [|lia].
  rewrite Nat2Z.id, Hg. cbn [mbind option_bind].
  now rewrite load_of_nat, Hv.
Qed.

Lemma convert_in_type (t : int_type) (v : Z) : in_type t v -> convert t v = v.
Proof.
  unfold in_type, convert.
  destruct t; cbn [is_signed bits]; intros H.
  all: change (2 ^ (8 - 1)) with 128 in *; change (2 ^ 8) with 256 in *;
       change (2 ^ (16 - 1)) with 32768 in *; change (2 ^ 16) with 65536 in *;
       change (2 ^ (32 - 1)) with 2147483648 in *;
       change (2 ^ 32) with 4294967296 in *;
       change (2 ^ (64 - 1)) with 9223372036854775808 in *;
       change (2 ^ 64) with 18446744073709551616 in *.
  all: rewrite Z.mod_small by lia; lia.
Qed.

Lemma in_type_promote (t : int_type) (v : Z) :
  in_type t v -> in_type (common_type t t) v.
Proof.
  unfold in_type. destruct t; cbn; lia.
Qed.

(** Between two values of the same type, [!=] is the inequality of the
    values. *)
Lemma differs_same_type (t : int_type) (u v : Z) :
  in_type t u -> in_type t v -> differs t t u v = negb (u =? v).
Proof.
  intros Hu Hv. unfold differs.
  now rewrite !convert_in_type by now apply in_type_promote.
Qed.

Lemma differs_refl (t u : int_type) (v : Z) : differs t u v v = false.
Proof. unfold differs. now rewrite Z.eqb_refl. Qed.

Lemma font_typed_cell (f : font) (i j : nat) (g : list Z) (v : Z) :
  font_typed f -> glyphs f !! i = Some g -> g !! j = Some v -> in_type (elem f) v.
Proof.
  intros Ht Hg Hv. unfold font_typed in Ht.
  rewrite Forall_lookup in Ht. specialize (Ht _ _ Hg).
  rewrite Forall_lookup in Ht. exact (Ht _ _ Hv).
Qed.

Lemma arrays_equal_true_iff (a b : font) :
  font_wf a -> font_wf b -> font_typed a -> font_typed b -> elem a = elem b ->
  (arrays_equal a b = true <-> a = b).
Proof.
  intros [HNa Hwa] [HNb Hwb] Hta Htb Hel. split.
  - unfold arrays_equal.
    destruct (Z.eqb_spec (Z.of_nat (length (glyphs a))) (Z.of_nat (length (glyphs b))))
      as [HM|]; [|discriminate].
    destruct (Z.eqb_spec (columns a) (columns b)) as [HN|]; [|discriminate].
    cbn [negb orb]. intros Hall.
    destruct a as [Ta Na ga], b as [Tb Nb gb]. cbn [elem columns glyphs] in *.
    subst Nb Tb.
    f_equal. apply list_eq. intros i.
    destruct (ga !! i) as [g|] eqn:Hg.
    + destruct (lookup_lt_is_Some_2 gb i) as [g' Hg'].
      { apply lookup_lt_Some in Hg. lia. }
      rewrite Hg'. f_equal.
      rewrite Forall_lookup in Hwa, Hwb.
      pose proof (Hwa _ _ Hg) as Hlg. pose proof (Hwb _ _ Hg') as Hlg'.
      pose proof (forallb_upto _ _ _ Hall (Z.of_nat i)
                    ltac:(apply lookup_lt_Some in Hg; lia)) as Hrow.
      cbv beta in Hrow.
      apply list_eq. intros j.
      destruct (g !! j) as [v|] eqn:Hv.
      * destruct (lookup_lt_is_Some_2 g' j) as [v' Hv'].
        { apply lookup_lt_Some in Hv. lia. }
        rewrite Hv'. f_equal.
        pose proof (forallb_upto _ _ _ Hrow (Z.of_nat j)
                      ltac:(apply lookup_lt_Some in Hv; lia)) as Hcell.
        cbv beta in Hcell.
        rewrite (cell_of_lookup {| elem := Ta; columns := Na; glyphs := ga |}
                   i j g v Hg Hv) in Hcell.
        rewrite (cell_of_lookup {| elem := Ta; columns := Na; glyphs := gb |}
                   i j g' v' Hg' Hv') in Hcell.
        rewrite (differs_same_type Ta v v'
                   (font_typed_cell _ i j g v Hta Hg Hv)
                   (font_typed_cell _ i j g' v' Htb Hg' Hv')) in Hcell.
        rewrite negb_involutive in Hcell. now apply Z.eqb_eq in Hcell.
      * symmetry. apply lookup_ge_None_2. apply lookup_ge_None_1 in Hv. lia.
    + symmetry. apply lookup_ge_None_2. apply lookup_ge_None_1 in Hg. lia.
  - intros <-. unfold arrays_equal. rewrite !Z.eqb_refl. cbn [negb orb].
    apply forallb_forall. intros i _. apply forallb_forall. intros j _.
    now rewrite differs_refl.
Qed.

(** [arrays_equal] is an equality test between tables of one element type:
    on two well-formed tables whose entries are values of the same type [T]
    it answers [true] exactly when they have the same dimensions and the
    same entries.  Across element types the entries are compared after the
    usual arithmetic conversions, and tables of different values can be
    equal: the [int8_t] table [{{-1}}] equals the [uint32_t] table
    [{{0xFFFFFFFF}}], since [-1] converts to [0xFFFFFFFF]. *)
Theorem arrays_equal_decides_equality (a b : font) :
  font_wf a -> font_wf b -> font_typed a -> font_typed b -> elem a = elem b ->
  (arrays_equal a b = true <-> a = b)
  /\ arrays_equal {| elem := int8_t; columns := 1; glyphs := [[-1]] |}
                  {| elem := uint32_t; columns := 1; glyphs := [[0xFFFFFFFF]] |}
     = true
  /\ arrays_equal {| elem := int8_t; columns := 1; glyphs := [[-1]] |}
                  {| elem := uint8_t; columns := 1; glyphs := [[0xFF]] |}
     = false.
Proof.
  intros Ha Hb Hta Htb Hel. split; [now apply arrays_equal_true_iff|].
  split; reflexivity.
Qed.

Lemma arrays_equal_decides_equality_witness :
  (arrays_equal five_column_font
                {| elem := uint8_t; columns := 5;
                   glyphs := replicate 94 (replicate 5 0xFF) ++ [[0xFF; 0xFF; 0xFF; 0xFF; 0xFE]] |}
   = true
   <-> five_column_font
       = {| elem := uint8_t; columns := 5;
            glyphs := replicate 94 (replicate 5 0xFF) ++ [[0xFF; 0xFF; 0xFF; 0xFF; 0xFE]] |})
  /\ arrays_equal {| elem := int8_t; columns := 1; glyphs := [[-1]] |}
                  {| elem := uint32_t; columns := 1; glyphs := [[0xFFFFFFFF]] |}
     = true
  /\ arrays_equal {| elem := int8_t; columns := 1; glyphs := [[-1]] |}
                  {| elem := uint8_t; columns := 1; glyphs := [[0xFF]] |}
     = false.
Proof.
  apply (arrays_equal_decides_equality
           five_column_font
           {| elem := uint8_t; columns := 5;
              glyphs := replicate 94 (replicate 5 0xFF) ++ [[0xFF; 0xFF; 0xFF; 0xFF; 0xFE]] |});
    try reflexivity;
    try (split; [by_eval|]);
    vm_compute; repeat constructor; discriminate.
Defined.




(** ** Direct printing *)

Section PrintDirect.

Variables FontMega FontHuge FontLarge : font.

Lemma write_row_outcome (charData : list Z) (shift n : Z) (lcd : LcdDriver) :
  0 <= n <= Z.of_nat (length charData) ->
  exists lcd',
    foldM (fun i lcd =>
             d ← load charData i;
             Some (write (u8 (Z.land (Z.shiftr d shift) 0xFF)) LCD_DATA lcd))
          (upto 0 n) lcd = Some lcd'
    /\ buffer lcd' = buffer lcd /\ inverttext lcd' = inverttext lcd
    /\ _cursor_x lcd' = _cursor_x lcd /\ _cursor_y lcd' = _cursor_y lcd.
Proof.
  intros Hn.
  destruct (foldM_invariant
    (fun (_ : nat) s => buffer s = buffer lcd /\ inverttext s = inverttext lcd
                        /\ _cursor_x s = _cursor_x lcd /\ _cursor_y s = _cursor_y lcd)
    (fun i lcd =>
       d ← load charData i;
       Some (write (u8 (Z.land (Z.shiftr d shift) 0xFF)) LCD_DATA lcd))
    (upto 0 n) lcd) as (lcd' & Hrun & H); [tauto| |eauto].
  intros k a s Ha Hs. apply lookup_upto in Ha as [-> Hk].
  destruct (load_in_range charData (0 + Z.of_nat k) ltac:(lia)) as [d ->].
  cbn [mbind option_bind]. eexists. split; [reflexivity|exact Hs].
Qed.

Lemma print_char_outcome (c x y : Z) (f : font) (lcd : LcdDriver) :
  font_wf f -> length (glyphs f) = 95%nat ->
  exists lcd',
    print_char FontMega FontHuge FontLarge c x y f lcd = Some lcd'
    /\ buffer lcd' = buffer lcd /\ inverttext lcd' = inverttext lcd.
Proof.
  intros [HN Hwf] Hlen. unfold print_char.
  destruct (load_glyph_in_range f (glyph_index c)) as [g Hg].
  { pose proof (glyph_index_range c). lia. }
  rewrite Hg. cbn [mbind option_bind].
  assert (Hgl : Z.of_nat (length g) = columns f).
  { unfold load_glyph in Hg. destruct (0 <=? glyph_index c); [|discriminate Hg].
    rewrite Forall_lookup in Hwf. apply (Hwf _ _ Hg). }
  generalize (shifts (get_shift_value FontMega FontHuge FontLarge f)) as l.
  intros l. revert lcd. induction l as [|sh l IH]; intros s.
  - exists s. repeat split.
  - destruct (write_row_outcome g sh (columns f) (setXY x (u8 (y + sh ÷ 8)) s)
                ltac:(lia)) as (s1 & Hrow & Hb1 & Hi1 & _).
    destruct (IH s1) as (s' & Hrun & Hb & Hi).
    exists s'. split; [|split].
    + cbn [foldM]. rewrite Hrow. exact Hrun.
    + now rewrite Hb, Hb1.
    + now rewrite Hi, Hi1.
Qed.

(** [print] goes straight to the device: on a table of 95 glyphs it always
    succeeds, whatever the string, and it leaves the buffer and the invert
    flag exactly as they were, so nothing of what it shows survives the next
    [refresh_screen]. *)
Theorem print_bypasses_buffer (str : list Z) (x y : Z) (f : font)
    (lcd : LcdDriver) :
  font_wf f -> length (glyphs f) = 95%nat ->
  exists lcd',
    print FontMega FontHuge FontLarge str x y f lcd = Some lcd'
    /\ buffer lcd' = buffer lcd
    /\ inverttext lcd' = inverttext lcd.
Proof.
  intros Hwf Hlen. revert x lcd. induction str as [|c rest IH]; intros x lcd.
  - exists lcd. repeat split.
  - cbn [print]. destruct (c =? 0); [exists lcd; repeat split|].
    destruct (print_char_outcome c x y f lcd Hwf Hlen) as (lcd1 & Hrun1 & Hb1 & Hi1).
    rewrite Hrun1. cbn [mbind option_bind].
    destruct (IH (u8 (x + columns f)) lcd1) as (lcd' & Hrun & Hb & Hi).
    exists lcd'. split; [exact Hrun|]. split; congruence.
Qed.

End PrintDirect.

Lemma print_bypasses_buffer_witness :
  exists lcd',
    print five_column_font five_column_font five_column_font
          [72; 105] 0 0 five_column_font cleared = Some lcd'
    /\ buffer lcd' = buffer cleared
    /\ inverttext lcd' = inverttext cleared.
Proof.
  apply (print_bypasses_buffer five_column_font five_column_font five_column_font
           [72; 105] 0 0 five_column_font cleared).
  - split; [by_eval|].
    apply Forall_forall. intros g [-> _]%elem_of_replicate. reflexivity.
  - reflexivity.
Defined.

(** ** Text: what an unsupported character renders *)



Section PrintUnsupported.

Variables FontMega FontHuge FontLarge : font.



End PrintUnsupported.


(** The character 200 on a font whose space glyph is [0x11 .. 0x55] and
    whose other glyphs are blank, a font that is none of the three large
    tables: [print_buffer] draws the space glyph into the buffer; [print]
    leaves the buffer blank and sends the two address commands and the five
    bytes of the space glyph. *)
Example unsupported_character_draws_entry_0 :
  let f := {| elem := uint8_t; columns := 5;
              glyphs := [0x11; 0x22; 0x33; 0x44; 0x55] :: replicate 94 (replicate 5 0) |} in
  let big := five_column_font in
  (lcd' ← print_buffer [200] 0 0 f cleared; Some (take 6 (buffer lcd')))
  = Some [0x11; 0x22; 0x33; 0x44; 0x55; 0]
  /\ (lcd' ← print big big big [200] 0 0 f cleared; Some (take 6 (buffer lcd')))
     = Some [0; 0; 0; 0; 0; 0]
  /\ (lcd' ← print big big big [200] 0 0 f cleared; Some (history lcd'))
     = Some (write_frame 0x40 LCD_COMMAND ++ write_frame 0x80 LCD_COMMAND
             ++ write_frame 0x11 LCD_DATA ++ write_frame 0x22 LCD_DATA
             ++ write_frame 0x33 LCD_DATA ++ write_frame 0x44 LCD_DATA
             ++ write_frame 0x55 LCD_DATA).
Proof. vm_compute. repeat split. Qed.
